(** * Avatar locomotion and floorplan editing of the Phaser Habbo engine

    A shallow embedding of
      - [packages/renderer/src/entities/HabboAvatarSprite.ts]
        (the avatar locomotion state machine and its screen projection),
      - [packages/client/src/scenes/FloorplanScene.ts]
        (the tile editing operations of the floorplan editor),
      - the door-mask projection of the room scene.

    Conventions of the embedding.
      - A TypeScript [number] that holds a coordinate is an exact rational
        ([Q]); no rounding error of IEEE doubles is modelled.  Counters,
        headings, heights and timestamps are integers ([Z]).
      - [Date.now()] is an input: every method that reads the clock takes
        the value read as its first argument [now].
      - The Phaser sprites are presentation only; [updateSprite] touches
        nothing but them and is therefore not part of the state.  The
        container position set by [updateScreenPosition] is kept. *)

From Stdlib Require Import ZArith QArith Qround Qminmax Lia Lqa Bool List.
From Stdlib Require String Ascii.
From stdpp Require Import base option list.
Import ListNotations.

Local Open Scope Z_scope.

(** ** JavaScript numeric helpers *)

Module Math.

(** [Math.floor] on an exact rational. *)
Definition floor (x : Q) : Q := inject_Z (Qfloor x).

(** [Math.round]: nearest integer, ties towards plus infinity. *)
Definition round (x : Q) : Q := inject_Z (Qfloor (x + (1 # 2))).

(** [Math.min] on two rationals. *)
Definition min (a b : Q) : Q := Qmin a b.

End Math.

(** [Array.prototype.shift]: the first element (if any) and the rest. *)
Definition shift {A : Type} (l : list A) : option A * list A :=
  match l with
  | [] => (None, [])
  | a :: r => (Some a, r)
  end.

(** ** Vector3 *)

(** Modelled from the spec: the class [Vector3] of [data/types/Vector3],
    whose declaration is not among the sources.  It is the continuous
    position [(x, y, z)] of the data model; [set] overwrites the three
    fields and [clone] builds a fresh vector with the same fields. *)
Record Vector3 : Type := mkVector3 { vx : Q; vy : Q; vz : Q }.

Definition Vector3_set (x y z : Q) (_ : Vector3) : Vector3 := mkVector3 x y z.
Definition Vector3_clone (v : Vector3) : Vector3 := mkVector3 (vx v) (vy v) (vz v).

(** ** The avatar *)

Record HabboAvatarSprite : Type := mkAvatar {
  position : Vector3;
  direction : Z;
  isWalking : bool;
  currentPath : list Vector3;
  currentTarget : option Vector3;
  moveStartTime : Z;
  moveStartPos : Vector3;
  frameCounter : Z;
  frameUpdateCounter : Z;
  (** [container.x], [container.y] *)
  container : Q * Q
}.

(** Field initialisers that are never reassigned. *)
Definition moveDuration : Z := 500.
Definition frameUpdateInterval : Z := 3.

(** Assignments to single fields. *)
Definition set_position (v : Vector3) (s : HabboAvatarSprite) :=
  mkAvatar v (direction s) (isWalking s) (currentPath s) (currentTarget s)
    (moveStartTime s) (moveStartPos s) (frameCounter s) (frameUpdateCounter s)
    (container s).
Definition set_direction (d : Z) (s : HabboAvatarSprite) :=
  mkAvatar (position s) d (isWalking s) (currentPath s) (currentTarget s)
    (moveStartTime s) (moveStartPos s) (frameCounter s) (frameUpdateCounter s)
    (container s).
Definition set_isWalking (b : bool) (s : HabboAvatarSprite) :=
  mkAvatar (position s) (direction s) b (currentPath s) (currentTarget s)
    (moveStartTime s) (moveStartPos s) (frameCounter s) (frameUpdateCounter s)
    (container s).
Definition set_currentPath (p : list Vector3) (s : HabboAvatarSprite) :=
  mkAvatar (position s) (direction s) (isWalking s) p (currentTarget s)
    (moveStartTime s) (moveStartPos s) (frameCounter s) (frameUpdateCounter s)
    (container s).
Definition set_currentTarget (t : option Vector3) (s : HabboAvatarSprite) :=
  mkAvatar (position s) (direction s) (isWalking s) (currentPath s) t
    (moveStartTime s) (moveStartPos s) (frameCounter s) (frameUpdateCounter s)
    (container s).
Definition set_moveStartTime (t : Z) (s : HabboAvatarSprite) :=
  mkAvatar (position s) (direction s) (isWalking s) (currentPath s)
    (currentTarget s) t (moveStartPos s) (frameCounter s)
    (frameUpdateCounter s) (container s).
Definition set_moveStartPos (v : Vector3) (s : HabboAvatarSprite) :=
  mkAvatar (position s) (direction s) (isWalking s) (currentPath s)
    (currentTarget s) (moveStartTime s) v (frameCounter s)
    (frameUpdateCounter s) (container s).
Definition set_frameCounter (n : Z) (s : HabboAvatarSprite) :=
  mkAvatar (position s) (direction s) (isWalking s) (currentPath s)
    (currentTarget s) (moveStartTime s) (moveStartPos s) n
    (frameUpdateCounter s) (container s).
Definition set_frameUpdateCounter (n : Z) (s : HabboAvatarSprite) :=
  mkAvatar (position s) (direction s) (isWalking s) (currentPath s)
    (currentTarget s) (moveStartTime s) (moveStartPos s) (frameCounter s) n
    (container s).
Definition set_container (c : Q * Q) (s : HabboAvatarSprite) :=
  mkAvatar (position s) (direction s) (isWalking s) (currentPath s)
    (currentTarget s) (moveStartTime s) (moveStartPos s) (frameCounter s)
    (frameUpdateCounter s) c.

(** Strict comparisons of JavaScript numbers, as booleans. *)
Definition Qgt0 (x : Q) : bool := negb (Qle_bool x 0).
Definition Qlt0 (x : Q) : bool := negb (Qle_bool 0 x).
Definition Qeq0 (x : Q) : bool := Qeq_bool x 0.

(** [calculateDirection(from, to)]; the last line reads [this.direction]. *)
Definition calculateDirection (s : HabboAvatarSprite) (from to : Vector3) : Z :=
  let dx := (vx to - vx from)%Q in
  let dy := (vy to - vy from)%Q in
  if Qeq0 dx && Qlt0 dy then 0
  else if Qgt0 dx && Qlt0 dy then 1
  else if Qgt0 dx && Qeq0 dy then 2
  else if Qgt0 dx && Qgt0 dy then 3
  else if Qeq0 dx && Qgt0 dy then 4
  else if Qlt0 dx && Qgt0 dy then 5
  else if Qlt0 dx && Qeq0 dy then 6
  else if Qlt0 dx && Qlt0 dy then 7
  else direction s.

(** [setDirection]: the sprite refresh it triggers is presentation only. *)
Definition setDirection (newDirection : Z) (s : HabboAvatarSprite) : HabboAvatarSprite :=
  if negb (direction s =? newDirection) then set_direction newDirection s else s.

(** Modelled from the spec: [IsometricEngine.tileToScreen], whose source is
    not among the files.  Each unit of [tileX] advances the screen position
    by (+32, +16), each unit of [tileY] by (-32, +16), each unit of height
    moves up by 32. *)
Definition tileToScreen (tileX tileY height : Q) : Q * Q :=
  (32 * tileX - 32 * tileY, 16 * tileX + 16 * tileY - 32 * height)%Q.

(** [createDoorMaskGraphics]: the inline projection [tileBase] of the door. *)
Definition doorMask_tileBase (doorX doorY doorZ : Q) : Q * Q :=
  (32 * (doorX + 1) - 32 * doorY,
   16 * (doorX + 1) + 16 * doorY - 32 * doorZ)%Q.

(** The container position computed by [updateScreenPosition]. *)
Definition screenPosition (p : Vector3) (dir : Z) : Q * Q :=
  let baseTileCorner :=
    tileToScreen (Math.floor (vx p)) (Math.floor (vy p)) (vz p) in
  let fracX := (vx p - Math.floor (vx p))%Q in
  let fracY := (vy p - Math.floor (vy p))%Q in
  let screenPos :=
    (fst baseTileCorner + 32 + (fracX - fracY) * 32,
     snd baseTileCorner + (fracX + fracY) * 16)%Q in
  let isFlipped := (dir =? 4) || (dir =? 5) || (dir =? 6) in
  let MANUAL_OFFSET_X : Q := if isFlipped then 30%Q else (-35)%Q in
  let MANUAL_OFFSET_Y : Q := 0%Q in
  (fst screenPos + MANUAL_OFFSET_X, snd screenPos + MANUAL_OFFSET_Y)%Q.

Definition updateScreenPosition (s : HabboAvatarSprite) : HabboAvatarSprite :=
  set_container (screenPosition (position s) (direction s)) s.

(** [walkTo(path)], with the clock value read by [Date.now()]. *)
Definition walkTo (now : Z) (path : list Vector3) (s : HabboAvatarSprite)
  : HabboAvatarSprite :=
  if (length path =? 0)%nat then s
  else
    let s1 :=
      if isWalking s
      then set_position
             (Vector3_set (Math.round (vx (position s)))
                          (Math.round (vy (position s)))
                          (vz (position s)) (position s)) s
      else s in
    let '(first, rest) := shift (map Vector3_clone path) in
    let s2 := set_currentTarget first (set_currentPath rest s1) in
    match currentTarget s2 with
    | Some target =>
        let s3 :=
          set_frameUpdateCounter 0 (set_frameCounter 0 (set_isWalking true s2)) in
        let dir := calculateDirection s3 (position s3) target in
        let s4 := setDirection dir s3 in
        set_moveStartPos (Vector3_clone (position s4)) (set_moveStartTime now s4)
    | None => s2
    end.

(** [stop()] *)
Definition stop (s : HabboAvatarSprite) : HabboAvatarSprite :=
  set_frameUpdateCounter 0
    (set_frameCounter 0
       (set_currentTarget None (set_currentPath [] (set_isWalking false s)))).

(** The linear interpolation of one coordinate. *)
Definition lerp (a b progress : Q) : Q := (a + (b - a) * progress)%Q.

(** [progress] of a leg started at [start], read at [now]. *)
Definition legProgress (start now : Z) : Q :=
  Math.min (inject_Z (now - start) / inject_Z moveDuration) 1.

(** [update(_time, _delta)]: both arguments are ignored by the source, the
    clock is read with [Date.now()]. *)
Definition update (now : Z) (s : HabboAvatarSprite) : HabboAvatarSprite :=
  match isWalking s, currentTarget s with
  | true, Some target =>
      let progress := legProgress (moveStartTime s) now in
      let s' :=
        if Qle_bool 1 progress then
          let s1 :=
            set_position
              (Vector3_set (vx target) (vy target) (vz target) (position s)) s in
          if (0 <? length (currentPath s1))%nat then
            match shift (currentPath s1) with
            | (Some next, rest) =>
                let s2 := set_currentTarget (Some next) (set_currentPath rest s1) in
                let dir := calculateDirection s2 (position s2) next in
                let s3 := setDirection dir s2 in
                set_frameUpdateCounter 0
                  (set_frameCounter 0
                     (set_moveStartPos (Vector3_clone (position s3))
                        (set_moveStartTime now s3)))
            | (None, _) => s1
            end
          else stop s1
        else
          let p := mkVector3
                     (lerp (vx (moveStartPos s)) (vx target) progress)
                     (lerp (vy (moveStartPos s)) (vy target) progress)
                     (lerp (vz (moveStartPos s)) (vz target) progress) in
          let s1 := set_position p s in
          let s2 := set_frameUpdateCounter (frameUpdateCounter s1 + 1) s1 in
          if frameUpdateInterval <=? frameUpdateCounter s2 then
            set_frameCounter (Z.rem (frameCounter s2 + 1) 4)
              (set_frameUpdateCounter 0 s2)
          else s2 in
      updateScreenPosition s'
  | _, _ => s
  end.

Definition isMoving (s : HabboAvatarSprite) : bool := isWalking s.
Definition getPosition (s : HabboAvatarSprite) : Vector3 := position s.

(** The avatar right after its constructor ran. *)
Definition newAvatar (startX startY startZ : Q) : HabboAvatarSprite :=
  updateScreenPosition
    (mkAvatar (mkVector3 startX startY startZ) 2 false [] None 0
       (mkVector3 0 0 0) 0 0 (0%Q, 0%Q)).

(** A run of [update] calls, one per clock reading, oldest first. *)
Definition run_updates (ts : list Z) (s : HabboAvatarSprite) : HabboAvatarSprite :=
  fold_left (fun acc now => update now acc) ts s.

(** How many legs a run of clock readings completes, for a leg that
    started at [start]: a reading at least [moveDuration] after the start
    of the current leg ends it and starts the next leg at that reading. *)
Fixpoint legsCompleted (start : Z) (ts : list Z) : nat :=
  match ts with
  | [] => 0%nat
  | now :: r =>
      if moveDuration <=? now - start
      then S (legsCompleted now r)
      else legsCompleted start r
  end.

(** The readings of a run that fall inside the leg started at [start]. *)
Definition insideLeg (start : Z) (ts : list Z) : Prop :=
  Forall (fun now => now - start < moveDuration) ts.

(** ** The floorplan editor *)

(** Modelled from the spec: the enum [FloorAction] of the editor component
    [FloorplanEditor], which is not among the sources; [onClick] switches
    over these five members. *)
Inductive FloorAction : Type := SET | UNSET | UP | DOWN | DOOR.

Record FloorplanConfig : Type := mkConfig {
  currentAction : FloorAction;
  currentHeight : Z;
  doorDirection : Z
}.

(** A tile, with the fields that [createEmptyRoom] writes. *)
Record Tile : Type := mkTile {
  tile_x : Z;
  tile_y : Z;
  height : Z;
  isBlocked : bool;
  walkable : bool
}.

(** The fields of [RoomData] the editor reads or writes; [tiles] is
    indexed [tiles[y][x]]. *)
Record RoomData : Type := mkRoomData {
  minX : Z;
  maxX : Z;
  minY : Z;
  maxY : Z;
  maxHeight : Z;
  doorTile : option (Z * Z);
  tiles : list (list Tile)
}.

(** The scene: the room being edited and the editor configuration. *)
Record FloorplanScene : Type := mkScene {
  roomData : RoomData;
  config : FloorplanConfig
}.

(** [a[i]] for a JavaScript array and an integer index: [undefined]
    (here [None]) below 0 and from the length on. *)
Definition index {A : Type} (a : list A) (i : Z) : option A :=
  if i <? 0 then None else a !! Z.to_nat i.

(** [tiles[gridY][gridX]]; [None] stands for [undefined], and also for the
    [TypeError] of indexing an undefined row. *)
Definition tileAt (ts : list (list Tile)) (gridX gridY : Z) : option Tile :=
  match index ts gridY with
  | Some row => index row gridX
  | None => None
  end.

(** The grid after the tile object at [tiles[gridY][gridX]] was mutated
    into [t]. *)
Definition withTile (ts : list (list Tile)) (gridX gridY : Z) (t : Tile)
  : list (list Tile) :=
  match index ts gridY with
  | Some row => <[Z.to_nat gridY := <[Z.to_nat gridX := t]> row]> ts
  | None => ts
  end.

Definition set_walkable (b : bool) (t : Tile) : Tile :=
  mkTile (tile_x t) (tile_y t) (height t) (isBlocked t) b.
Definition set_height (h : Z) (t : Tile) : Tile :=
  mkTile (tile_x t) (tile_y t) h (isBlocked t) (walkable t).
Definition set_tiles (ts : list (list Tile)) (r : RoomData) : RoomData :=
  mkRoomData (minX r) (maxX r) (minY r) (maxY r) (maxHeight r) (doorTile r) ts.
Definition set_doorTile (d : option (Z * Z)) (r : RoomData) : RoomData :=
  mkRoomData (minX r) (maxX r) (minY r) (maxY r) (maxHeight r) d (tiles r).

(** [createEmptyRoom]: 64 x 64 tiles, none walkable, no door. *)
Definition MAX_TILES : Z := 64.

Definition createEmptyRoom : RoomData :=
  mkRoomData 0 (MAX_TILES - 1) 0 (MAX_TILES - 1) 0 None
    (map (fun y => map (fun x => mkTile x y 0 false false) (seqZ 0 MAX_TILES))
         (seqZ 0 MAX_TILES)).

(** The scene right after its constructor ran. *)
Definition newFloorplanScene : FloorplanScene :=
  mkScene createEmptyRoom (mkConfig SET 0 2).

(** [updateConfig] with the fields a caller may leave out. *)
Definition updateConfig (action : option FloorAction) (h : option Z)
    (dir : option Z) (sc : FloorplanScene) : FloorplanScene :=
  mkScene (roomData sc)
    (mkConfig (default (currentAction (config sc)) action)
              (default (currentHeight (config sc)) h)
              (default (doorDirection (config sc)) dir)).

(** The tiles that one pair of loops of [renderGrid] reads, row by row:
    [tiles[y][x]] for every [y] in 0..maxY and [x] in 0..maxX.  [None] is
    the [TypeError] of reading [walkable] of a tile that is not there. *)
Definition renderedTiles (room : RoomData) : option (list (list Tile)) :=
  mapM (fun y => mapM (fun x => tileAt (tiles room) x y)
                   (seqZ 0 (maxX room + 1)))
       (seqZ 0 (maxY room + 1)).

(** [renderGrid()]: two pairs of loops over the same tiles, the first for
    the tiles that are not walkable, the second for the walkable ones.
    What they draw is presentation only; what matters here is that they
    read every tile inside the bounds, and fail when one is missing. *)
Definition renderGrid (room : RoomData) : option unit :=
  match renderedTiles room with
  | Some _ =>
      match renderedTiles room with
      | Some _ => Some tt
      | None => None
      end
  | None => None
  end.

(** [onClick(gridX, gridY)]; [None] is the [TypeError] raised when the
    coordinate has no tile, or when the closing [renderGrid] finds a tile
    missing inside the bounds. *)
Definition onClick (gridX gridY : Z) (sc : FloorplanScene)
  : option FloorplanScene :=
  let room := roomData sc in
  match tileAt (tiles room) gridX gridY with
  | None => None
  | Some tile =>
      let room' :=
        match currentAction (config sc) with
        | SET =>
            let tile1 := set_walkable true tile in
            let tile2 := set_height (currentHeight (config sc)) tile1 in
            set_tiles (withTile (tiles room) gridX gridY tile2) room
        | UNSET =>
            let tile1 := set_walkable false tile in
            let tile2 := set_height 0 tile1 in
            set_tiles (withTile (tiles room) gridX gridY tile2) room
        | UP =>
            if walkable tile && (height tile <? 9)
            then set_tiles
                   (withTile (tiles room) gridX gridY
                      (set_height (height tile + 1) tile)) room
            else room
        | DOWN =>
            if walkable tile && (0 <? height tile)
            then set_tiles
                   (withTile (tiles room) gridX gridY
                      (set_height (height tile - 1) tile)) room
            else room
        | DOOR =>
            if walkable tile
            then set_doorTile (Some (gridX, gridY)) room
            else room
        end in
      match renderGrid room' with
      | Some _ => Some (mkScene room' (config sc))
      | None => None
      end
  end.

(** The door, when there is one, is on a walkable tile. *)
Definition doorOnWalkable (r : RoomData) : bool :=
  match doorTile r with
  | None => true
  | Some (dx, dy) =>
      match tileAt (tiles r) dx dy with
      | Some t => walkable t
      | None => false
      end
  end.

(** Every tile height is one of 0..9. *)
Definition heightInRange (t : Tile) : Prop := 0 <= height t <= 9.
Definition heightsInRange (r : RoomData) : Prop :=
  Forall (Forall heightInRange) (tiles r).

(** A sequence of editor commands: a configuration change or a click. *)
Inductive EditorCommand : Type :=
  | Configure (action : FloorAction) (h : Z)
  | Click (gridX gridY : Z).

Definition runCommand (c : EditorCommand) (sc : FloorplanScene)
  : option FloorplanScene :=
  match c with
  | Configure action h => Some (updateConfig (Some action) (Some h) None sc)
  | Click gridX gridY => onClick gridX gridY sc
  end.

Fixpoint runCommands (cs : list EditorCommand) (sc : FloorplanScene)
  : option FloorplanScene :=
  match cs with
  | [] => Some sc
  | c :: r =>
      match runCommand c sc with
      | Some sc' => runCommands r sc'
      | None => None
      end
  end.

(** What the [switch] of [onClick] does to the clicked tile object. *)
Definition clickedTile (cfg : FloorplanConfig) (tile : Tile) : Tile :=
  match currentAction cfg with
  | SET => set_height (currentHeight cfg) (set_walkable true tile)
  | UNSET => set_height 0 (set_walkable false tile)
  | UP => if walkable tile && (height tile <? 9)
          then set_height (height tile + 1) tile else tile
  | DOWN => if walkable tile && (0 <? height tile)
            then set_height (height tile - 1) tile else tile
  | DOOR => tile
  end.

(** The room as the [switch] of [onClick] leaves it, before the redraw. *)
Definition afterSwitch (gridX gridY : Z) (sc : FloorplanScene) (tile : Tile)
  : RoomData :=
  let room := roomData sc in
  match currentAction (config sc) with
  | SET =>
      let tile1 := set_walkable true tile in
      let tile2 := set_height (currentHeight (config sc)) tile1 in
      set_tiles (withTile (tiles room) gridX gridY tile2) room
  | UNSET =>
      let tile1 := set_walkable false tile in
      let tile2 := set_height 0 tile1 in
      set_tiles (withTile (tiles room) gridX gridY tile2) room
  | UP =>
      if walkable tile && (height tile <? 9)
      then set_tiles
             (withTile (tiles room) gridX gridY
                (set_height (height tile + 1) tile)) room
      else room
  | DOWN =>
      if walkable tile && (0 <? height tile)
      then set_tiles
             (withTile (tiles room) gridX gridY
                (set_height (height tile - 1) tile)) room
      else room
  | DOOR =>
      if walkable tile
      then set_doorTile (Some (gridX, gridY)) room
      else room
  end.

(** The bounds of the room hold a tile at every coordinate: what
    [renderGrid] needs to get through. *)
Definition gridCovered (room : RoomData) : Prop :=
  forall x y, 0 <= x <= maxX room -> 0 <= y <= maxY room ->
    is_Some (tileAt (tiles room) x y).

(** A command that keeps the configured height within 0..9. *)
Definition validCommand (c : EditorCommand) : Prop :=
  match c with
  | Configure _ h => 0 <= h <= 9
  | Click _ _ => True
  end.

(** ** Further parts of the avatar *)

(** [getTilePosition()]: the tile under the continuous position. *)
Definition getTilePosition (s : HabboAvatarSprite) : Q * Q :=
  (Math.floor (vx (position s)), Math.floor (vy (position s))).

(** The artwork heading and the mirroring that [updateSprite] derives from
    the heading: [(actualDirection, flipped)]. *)
Definition spriteFacing (dir : Z) : Z * bool :=
  if dir =? 4 then (2, true)
  else if dir =? 5 then (1, true)
  else if dir =? 6 then (0, true)
  else (dir, false).

(** [p] lies between [a] and [b], whichever of the two is smaller. *)
Definition between (a p b : Q) : Prop :=
  (a <= p /\ p <= b)%Q \/ (b <= p /\ p <= a)%Q.

(** The calls of the public interface that change the avatar. *)
Inductive AvatarCall : Type :=
  | CallWalkTo (now : Z) (path : list Vector3)
  | CallStop
  | CallUpdate (now : Z).

Definition runCall (c : AvatarCall) (s : HabboAvatarSprite) : HabboAvatarSprite :=
  match c with
  | CallWalkTo now path => walkTo now path s
  | CallStop => stop s
  | CallUpdate now => update now s
  end.

Definition runCalls (cs : list AvatarCall) (s : HabboAvatarSprite)
  : HabboAvatarSprite :=
  fold_left (fun acc c => runCall c acc) cs s.

(** The relations between the fields that the methods rely on: a walking
    avatar has a leg target, an idle one has neither target nor pending
    waypoints and shows frame 0; the counters stay below their moduli and
    the heading is one of the eight. *)
Definition consistent (s : HabboAvatarSprite) : Prop :=
  (if isWalking s
   then currentTarget s <> None
   else currentTarget s = None /\ currentPath s = [] /\
        frameCounter s = 0 /\ frameUpdateCounter s = 0) /\
  0 <= frameUpdateCounter s < frameUpdateInterval /\
  0 <= frameCounter s < 4 /\
  0 <= direction s <= 7.

(** ** Further parts of the floorplan editor *)

(** Field initialisers of the scene that are never reassigned. *)
Definition offsetX : Q := 450.
Definition offsetY : Q := 150.

(** The scene together with its pointer bookkeeping. *)
Record FloorplanPointer : Type := mkPointer {
  scene : FloorplanScene;
  isHolding : bool;
  lastUsedTile : Z * Z
}.

Definition newFloorplanPointer : FloorplanPointer :=
  mkPointer newFloorplanScene false (-1, -1).

(** The grid coordinate that [processTileAction] computes for a pointer
    position: the inverse projection, floored and clamped to the room. *)
Definition pointerTile (room : RoomData) (pointerX pointerY : Q) : Z * Z :=
  let screenX := (pointerX - offsetX)%Q in
  let screenY := (pointerY - offsetY)%Q in
  let localX := Qfloor (screenX / 64 + screenY / 32) in
  let localY := Qfloor (screenY / 32 - screenX / 64) in
  let gridX := Z.max 0 (Z.min localX (maxX room)) in
  let gridY := Z.max 0 (Z.min localY (maxY room)) in
  (gridX, gridY).

(** [processTileAction(pointer)]; [None] is the [TypeError] of [onClick]. *)
Definition processTileAction (pointerX pointerY : Q) (st : FloorplanPointer)
  : option FloorplanPointer :=
  let '(gridX, gridY) := pointerTile (roomData (scene st)) pointerX pointerY in
  if (fst (lastUsedTile st) =? gridX) && (snd (lastUsedTile st) =? gridY)
  then Some st
  else
    match onClick gridX gridY (scene st) with
    | Some sc' => Some (mkPointer sc' (isHolding st) (gridX, gridY))
    | None => None
    end.

Definition handlePointerDown (pointerX pointerY : Q) (st : FloorplanPointer)
  : option FloorplanPointer :=
  processTileAction pointerX pointerY
    (mkPointer (scene st) true (lastUsedTile st)).

Definition handlePointerUp (st : FloorplanPointer) : FloorplanPointer :=
  mkPointer (scene st) false (-1, -1).

Definition handlePointerMove (pointerX pointerY : Q) (st : FloorplanPointer)
  : option FloorplanPointer :=
  if negb (isHolding st) then Some st
  else processTileAction pointerX pointerY st.

(** What reaches the editor: pointer events and configuration changes. *)
Inductive EditorEvent : Type :=
  | PointerDown (pointerX pointerY : Q)
  | PointerMove (pointerX pointerY : Q)
  | PointerUp
  | UpdateConfig (action : option FloorAction) (h dir : option Z).

Definition runEvent (e : EditorEvent) (st : FloorplanPointer)
  : option FloorplanPointer :=
  match e with
  | PointerDown x y => handlePointerDown x y st
  | PointerMove x y => handlePointerMove x y st
  | PointerUp => Some (handlePointerUp st)
  | UpdateConfig action h dir =>
      Some (mkPointer (updateConfig action h dir (scene st)) (isHolding st)
              (lastUsedTile st))
  end.

Fixpoint runEvents (es : list EditorEvent) (st : FloorplanPointer)
  : option FloorplanPointer :=
  match es with
  | [] => Some st
  | e :: r =>
      match runEvent e st with
      | Some st' => runEvents r st'
      | None => None
      end
  end.

(** Where [renderGrid] puts the top corner of tile [(x, y)], and the four
    corners that [drawIsometricTile] joins from there. *)
Definition tileOrigin (x y : Z) : Q * Q :=
  let screenPos := tileToScreen (inject_Z x) (inject_Z y) 0 in
  (offsetX + fst screenPos, offsetY + snd screenPos)%Q.

Definition tileCorners (x y : Z) : list (Q * Q) :=
  let '(sx, sy) := tileOrigin x y in
  [(sx, sy); (sx + 32, sy + 16); (sx, sy + 32); (sx - 32, sy + 16)]%Q.

(** The room of the editor as its own operations keep it: square bounds
    of 64 tiles, every coordinate holding the tile with those coordinates
    and no tile outside, no tile blocked, and height 0 on every tile that
    is not walkable. *)
Definition editorRoom (room : RoomData) : Prop :=
  maxX room = MAX_TILES - 1 /\ maxY room = MAX_TILES - 1 /\
  (forall x y, 0 <= x < MAX_TILES -> 0 <= y < MAX_TILES ->
     exists t, tileAt (tiles room) x y = Some t /\
               tile_x t = x /\ tile_y t = y /\ isBlocked t = false /\
               (walkable t = false -> height t = 0)) /\
  (forall x y, ~ (0 <= x < MAX_TILES /\ 0 <= y < MAX_TILES) ->
     tileAt (tiles room) x y = None).

(** [getHeightColor(height)]; [None] is [undefined]. *)
Definition heightColors : list Z :=
  [0x0065ff; 0x00bcff; 0x00ff93; 0xf2ff00; 0xff8900; 0xff0700; 0xff00a5;
   0xaa00ff].

Definition getHeightColor (h : Z) : option Z :=
  index heightColors (Z.min h (Z.of_nat (length heightColors) - 1)).

(** *** Exporting the pattern *)

(** The digit of [d] in base 36, for [d] in 0..35: [0-9] then [a-z]. *)
Definition digit36 (d : Z) : Ascii.ascii :=
  Ascii.ascii_of_nat (Z.to_nat (if d <? 10 then 48 + d else 87 + d)).

(** The base-36 digits of a non-negative [n], most significant first, in
    front of [acc]. *)
Fixpoint digits36 (fuel : nat) (n : Z) (acc : String.string) : String.string :=
  match fuel with
  | O => acc
  | S fuel' =>
      let acc' := String.String (digit36 (n mod 36)) acc in
      if n <? 36 then acc' else digits36 fuel' (n / 36) acc'
  end.

(** [n.toString(36)] for an integer [n]. *)
Definition toString36 (n : Z) : String.string :=
  if n <? 0
  then String.String (Ascii.ascii_of_nat 45)
         (digits36 (S (Z.to_nat (- n))) (- n) String.EmptyString)
  else digits36 (S (Z.to_nat n)) n String.EmptyString.

(** The letter [x] that marks a tile that is not walkable. *)
Definition letter_x : Ascii.ascii := Ascii.ascii_of_nat 120.

(** What [exportPattern] appends to the row for one tile. *)
Definition tileText (t : Tile) : String.string :=
  if walkable t then toString36 (height t)
  else String.String letter_x String.EmptyString.

(** The first pair of loops of [exportPattern]: [(maxX, maxY)] over the
    walkable tiles, both starting at 0; [x] and [y] are the loop indices
    of the tiles and rows still to visit. *)
Fixpoint scanRow (row : list Tile) (x y : Z) (acc : Z * Z) : Z * Z :=
  match row with
  | [] => acc
  | t :: r =>
      scanRow r (x + 1) y
        (if walkable t then (Z.max (fst acc) x, Z.max (snd acc) y) else acc)
  end.

Fixpoint scanRows (rows : list (list Tile)) (y : Z) (acc : Z * Z) : Z * Z :=
  match rows with
  | [] => acc
  | row :: r => scanRows r (y + 1) (scanRow row 0 y acc)
  end.

Definition walkableExtent (ts : list (list Tile)) : Z * Z :=
  scanRows ts 0 (0, 0).

(** One row of the second pair of loops; [None] is the [TypeError] of
    reading a tile that is not there. *)
Definition exportRow (ts : list (list Tile)) (y mx : Z) : option String.string :=
  foldl (fun acc x =>
           match acc, tileAt ts x y with
           | Some row, Some tile => Some (String.append row (tileText tile))
           | _, _ => None
           end)
        (Some String.EmptyString) (seqZ 0 (mx + 1)).

(** [exportPattern()] *)
Definition exportPattern (room : RoomData) : option (list String.string) :=
  let '(mx, my) := walkableExtent (tiles room) in
  mapM (fun y => exportRow (tiles room) y mx) (seqZ 0 (my + 1)).

(** *** Loading a room into the editor *)

(** [a[i] = v] on an array without holes: an index inside the array
    overwrites, the index just past the end appends.  Any other index
    would leave holes or set a property, which a list cannot hold; the
    loops below write the indices 0, 1, 2, ... in order and never do
    that, and the model answers [None] there. *)
Definition arraySet {A : Type} (a : list A) (i : Z) (v : A) : option (list A) :=
  if (0 <=? i) && (i <? Z.of_nat (length a))
  then Some (<[Z.to_nat i := v]> a)
  else if i =? Z.of_nat (length a) then Some (a ++ [v])
  else None.

(** The tile that [loadFromRoomData] builds for [(x, y)]: a copy of the
    source tile inside the bounds of the source room ([None] is the
    [TypeError] of a source tile that is not there), the empty tile
    outside. *)
Definition loadTile (sourceRoom : RoomData) (x y : Z) : option Tile :=
  if (y <=? maxY sourceRoom) && (x <=? maxX sourceRoom)
  then match tileAt (tiles sourceRoom) x y with
       | Some sourceTile =>
           Some (mkTile x y (height sourceTile) (isBlocked sourceTile)
                   (walkable sourceTile))
       | None => None
       end
  else Some (mkTile x y 0 false false).

(** The inner loop over [x], on the row array [tiles[y]]. *)
Definition loadRow (sourceRoom : RoomData) (y : Z) (row : list Tile)
  : option (list Tile) :=
  foldl (fun acc x =>
           match acc, loadTile sourceRoom x y with
           | Some r, Some t => arraySet r x t
           | _, _ => None
           end)
        (Some row) (seqZ 0 MAX_TILES).

(** The outer loop over [y]; a missing row array is a [TypeError]. *)
Definition loadRows (sourceRoom : RoomData) (ts : list (list Tile))
  : option (list (list Tile)) :=
  foldl (fun acc y =>
           match acc with
           | Some ts' =>
               match index ts' y with
               | Some row =>
                   match loadRow sourceRoom y row with
                   | Some row' => Some (<[Z.to_nat y := row']> ts')
                   | None => None
                   end
               | None => None
               end
           | None => None
           end)
        (Some ts) (seqZ 0 MAX_TILES).

(** [loadFromRoomData(sourceRoom)]; it ends with [renderGrid]. *)
Definition loadFromRoomData (sourceRoom : RoomData) (sc : FloorplanScene)
  : option FloorplanScene :=
  match loadRows sourceRoom (tiles (roomData sc)) with
  | Some ts' =>
      let room1 := set_tiles ts' (roomData sc) in
      let room2 :=
        match doorTile sourceRoom with
        | Some d => set_doorTile (Some d) room1
        | None => room1
        end in
      match renderGrid room2 with
      | Some _ => Some (mkScene room2 (config sc))
      | None => None
      end
  | None => None
  end.

(** An event that keeps the configured height within 0..9. *)
Definition validEvent (e : EditorEvent) : Prop :=
  match e with
  | UpdateConfig _ (Some h) _ => 0 <= h <= 9
  | _ => True
  end.

(** ** Basic facts about the numeric helpers *)

Lemma Qeq0_true (x : Q) : Qeq0 x = true <-> (x == 0)%Q.
Proof. unfold Qeq0. apply Qeq_bool_iff. Qed.

Lemma Qlt0_true (x : Q) : Qlt0 x = true <-> (x < 0)%Q.
Proof.
  unfold Qlt0. rewrite negb_true_iff, <- not_true_iff_false, Qle_bool_iff.
  split; intro H; [apply Qnot_le_lt | apply Qlt_not_le]; exact H.
Qed.

Lemma Qgt0_true (x : Q) : Qgt0 x = true <-> (0 < x)%Q.
Proof.
  unfold Qgt0. rewrite negb_true_iff, <- not_true_iff_false, Qle_bool_iff.
  split; intro H; [apply Qnot_le_lt | apply Qlt_not_le]; exact H.
Qed.

Lemma Qeq0_false (x : Q) : Qeq0 x = false <-> ~ (x == 0)%Q.
Proof. rewrite <- Qeq0_true. destruct (Qeq0 x); split; congruence. Qed.

Lemma Qlt0_false (x : Q) : Qlt0 x = false <-> (0 <= x)%Q.
Proof.
  unfold Qlt0. rewrite negb_false_iff. apply Qle_bool_iff.
Qed.

Lemma Qgt0_false (x : Q) : Qgt0 x = false <-> (x <= 0)%Q.
Proof.
  unfold Qgt0. rewrite negb_false_iff. apply Qle_bool_iff.
Qed.

(** A rational is negative, zero or positive, and the three tests of
    [calculateDirection] tell which. *)
Lemma Qsign_cases (x : Q) :
  ((x < 0)%Q /\ Qlt0 x = true /\ Qeq0 x = false /\ Qgt0 x = false) \/
  ((x == 0)%Q /\ Qlt0 x = false /\ Qeq0 x = true /\ Qgt0 x = false) \/
  ((0 < x)%Q /\ Qlt0 x = false /\ Qeq0 x = false /\ Qgt0 x = true).
Proof.
  destruct (Q_dec x 0) as [[H | H] | H].
  - left. split; [exact H |]. split; [apply Qlt0_true; exact H |].
    split; [apply Qeq0_false; lra | apply Qgt0_false; lra].
  - right; right. split; [exact H |]. split; [apply Qlt0_false; lra |].
    split; [apply Qeq0_false; lra | apply Qgt0_true; exact H].
  - right; left. split; [exact H |]. split; [apply Qlt0_false; lra |].
    split; [apply Qeq0_true; exact H | apply Qgt0_false; lra].
Qed.

(** The elapsed time of a leg as a fraction of its duration. *)
Lemma elapsed_ratio_ge1 (e : Z) :
  (1 <= inject_Z e / inject_Z moveDuration)%Q <-> moveDuration <= e.
Proof.
  unfold moveDuration, Qdiv, Qle, Qmult, Qinv, inject_Z. simpl. lia.
Qed.

(** The test [progress >= 1] of [update] is a test on the clock. *)
Lemma legProgress_done (start now : Z) :
  Qle_bool 1 (legProgress start now) = (moveDuration <=? now - start).
Proof.
  unfold legProgress, Math.min.
  destruct (Z.leb_spec moveDuration (now - start)) as [H | H].
  - apply Qle_bool_iff. apply Q.min_glb; [| apply Qle_refl].
    apply elapsed_ratio_ge1. exact H.
  - apply not_true_iff_false. rewrite Qle_bool_iff. intro Hle.
    assert (Hr : (1 <= inject_Z (now - start) / inject_Z moveDuration)%Q).
    { eapply Qle_trans; [exact Hle | apply Q.le_min_l]. }
    pose proof (proj1 (elapsed_ratio_ge1 _) Hr) as Hz.
    unfold moveDuration in *. lia.
Qed.

(** Before the leg is over, [progress] is the plain ratio. *)
Lemma legProgress_running (start now : Z) :
  now - start < moveDuration ->
  (legProgress start now == inject_Z (now - start) / inject_Z moveDuration)%Q.
Proof.
  intro H. unfold legProgress, Math.min. apply Q.min_l.
  destruct (Qlt_le_dec (inject_Z (now - start) / inject_Z moveDuration) 1)
    as [Hlt | Hge]; [apply Qlt_le_weak; exact Hlt |].
  pose proof (proj1 (elapsed_ratio_ge1 _) Hge) as Hz.
  unfold moveDuration in *. lia.
Qed.

Lemma Vector3_clone_id (v : Vector3) : Vector3_clone v = v.
Proof. destruct v; reflexivity. Qed.

Lemma round_nearest (x : Q) :
  (Math.round x - (1 # 2) <= x)%Q /\ (x < Math.round x + (1 # 2))%Q.
Proof.
  unfold Math.round.
  pose proof (Qfloor_le (x + (1 # 2))) as Hlo.
  pose proof (Qlt_floor (x + (1 # 2))) as Hhi.
  rewrite inject_Z_plus in Hhi. change (inject_Z 1) with 1%Q in Hhi.
  split; lra.
Qed.

(** ** One step of the locomotion state machine *)

Lemma setDirection_eq (d : Z) (s : HabboAvatarSprite) :
  setDirection d s = set_direction d s.
Proof.
  unfold setDirection. destruct (Z.eqb_spec (direction s) d) as [E | E]; simpl.
  - destruct s; simpl in *; subst; reflexivity.
  - reflexivity.
Qed.

(** [calculateDirection] reads nothing of the avatar but its heading, and
    nothing of the two vectors but [x] and [y]. *)
Lemma calculateDirection_ext (s s' : HabboAvatarSprite) (a a' b b' : Vector3) :
  direction s = direction s' ->
  vx a = vx a' -> vy a = vy a' -> vx b = vx b' -> vy b = vy b' ->
  calculateDirection s a b = calculateDirection s' a' b'.
Proof.
  intros Hd Hax Hay Hbx Hby. unfold calculateDirection.
  rewrite Hd, Hax, Hay, Hbx, Hby. reflexivity.
Qed.

(** Exposes the record behind a chain of field assignments. *)
Ltac assignments :=
  cbv beta iota zeta delta
    [set_position set_direction set_isWalking set_currentPath
     set_currentTarget set_moveStartTime set_moveStartPos set_frameCounter
     set_frameUpdateCounter set_container updateScreenPosition stop
     Vector3_set Vector3_clone shift
     position direction isWalking currentPath currentTarget moveStartTime
     moveStartPos frameCounter frameUpdateCounter container vx vy vz].

(** An [update] call when no leg is active returns at once. *)
Lemma update_idle (now : Z) (s : HabboAvatarSprite) :
  isWalking s = false -> update now s = s.
Proof. intro H. unfold update. rewrite H. reflexivity. Qed.

(** An [update] call before the leg is over: interpolation and cadence. *)
Lemma update_running (now : Z) (s : HabboAvatarSprite) (t : Vector3) :
  isWalking s = true -> currentTarget s = Some t ->
  now - moveStartTime s < moveDuration ->
  update now s =
    let pr := legProgress (moveStartTime s) now in
    let p := mkVector3 (lerp (vx (moveStartPos s)) (vx t) pr)
                       (lerp (vy (moveStartPos s)) (vy t) pr)
                       (lerp (vz (moveStartPos s)) (vz t) pr) in
    let c := frameUpdateCounter s + 1 in
    mkAvatar p (direction s) true (currentPath s) (Some t)
      (moveStartTime s) (moveStartPos s)
      (if frameUpdateInterval <=? c then Z.rem (frameCounter s + 1) 4
       else frameCounter s)
      (if frameUpdateInterval <=? c then 0 else c)
      (screenPosition p (direction s)).
Proof.
  intros Hw Ht He. unfold update. rewrite Hw, Ht, legProgress_done.
  destruct (Z.leb_spec moveDuration (now - moveStartTime s)) as [H | _];
    [lia |].
  destruct s as [p d w cp ct t0 p0 f c k]. simpl in Hw, Ht. subst w ct.
  assignments.
  destruct (frameUpdateInterval <=? c + 1); reflexivity.
Qed.

(** An [update] call that ends a leg while waypoints remain. *)
Lemma update_next_leg (now : Z) (s : HabboAvatarSprite) (t w : Vector3)
    (r : list Vector3) :
  isWalking s = true -> currentTarget s = Some t -> currentPath s = w :: r ->
  moveDuration <= now - moveStartTime s ->
  update now s =
    let d := calculateDirection s t w in
    mkAvatar t d true r (Some w) now t 0 0 (screenPosition t d).
Proof.
  intros Hw Ht Hp He. unfold update. rewrite Hw, Ht, legProgress_done.
  destruct (Z.leb_spec moveDuration (now - moveStartTime s)) as [_ | H];
    [| lia].
  destruct s as [p d wk cp ct t0 p0 f c k]. simpl in Hw, Ht, Hp.
  subst wk ct cp. destruct t as [tx ty tz].
  assignments. simpl. rewrite setDirection_eq. assignments. reflexivity.
Qed.

(** An [update] call that ends the last leg. *)
Lemma update_last_leg (now : Z) (s : HabboAvatarSprite) (t : Vector3) :
  isWalking s = true -> currentTarget s = Some t -> currentPath s = [] ->
  moveDuration <= now - moveStartTime s ->
  update now s =
    mkAvatar t (direction s) false [] None (moveStartTime s) (moveStartPos s)
      0 0 (screenPosition t (direction s)).
Proof.
  intros Hw Ht Hp He. unfold update. rewrite Hw, Ht, legProgress_done.
  destruct (Z.leb_spec moveDuration (now - moveStartTime s)) as [_ | H];
    [| lia].
  destruct s as [p d wk cp ct t0 p0 f c k]. simpl in Hw, Ht, Hp.
  subst wk ct cp. destruct t as [tx ty tz].
  assignments. reflexivity.
Qed.

(** [walkTo] with a non-empty path, as one record. *)
Lemma walkTo_cons (now : Z) (w : Vector3) (rest : list Vector3)
    (s : HabboAvatarSprite) :
  walkTo now (w :: rest) s =
    let p := if isWalking s
             then mkVector3 (Math.round (vx (position s)))
                            (Math.round (vy (position s))) (vz (position s))
             else position s in
    mkAvatar p (calculateDirection s p w) true (map Vector3_clone rest)
      (Some w) now p 0 0 (container s).
Proof.
  destruct s as [[px py pz] d wk cp ct t0 p0 f c k]. destruct w as [x y z].
  unfold walkTo. simpl length. simpl Nat.eqb. cbv iota.
  simpl map. assignments.
  destruct wk; rewrite setDirection_eq; assignments; reflexivity.
Qed.

(** ** Claims about [walkTo], [stop] and [calculateDirection] *)

(** C7: [walkTo] with an empty path returns at once: whatever the clock
    reads and whatever the state (Moving included), the avatar after the
    call is the avatar before it, field for field. *)
Theorem walkTo_empty_noop (now : Z) (s : HabboAvatarSprite) :
  walkTo now [] s = s.
Proof. reflexivity. Qed.

(** C6: [stop] leaves the avatar Idle, with no pending waypoint, no leg
    target and both frame counters at 0; position (fractional or not),
    heading, leg timer, leg start and container are those before. *)
Theorem stop_effect (s : HabboAvatarSprite) :
  isMoving (stop s) = false /\
  currentPath (stop s) = [] /\
  currentTarget (stop s) = None /\
  frameCounter (stop s) = 0 /\
  frameUpdateCounter (stop s) = 0 /\
  position (stop s) = position s /\
  direction (stop s) = direction s /\
  moveStartTime (stop s) = moveStartTime s /\
  moveStartPos (stop s) = moveStartPos s /\
  container (stop s) = container s.
Proof. destruct s. repeat split. Qed.

(** C4: [calculateDirection] is the sign table of the delta between the
    two positions: N, NE, E, SE, S, SW, W, NW are 0..7, a zero delta keeps
    the current heading; so a delta (1,-1) gives 1 and (-1,0) gives 6. *)
Theorem calculateDirection_sign_table (s : HabboAvatarSprite)
    (from to : Vector3) :
  let dx := (vx to - vx from)%Q in
  let dy := (vy to - vy from)%Q in
  let h := calculateDirection s from to in
  ((dx == 0)%Q -> (dy < 0)%Q -> h = 0) /\
  ((0 < dx)%Q -> (dy < 0)%Q -> h = 1) /\
  ((0 < dx)%Q -> (dy == 0)%Q -> h = 2) /\
  ((0 < dx)%Q -> (0 < dy)%Q -> h = 3) /\
  ((dx == 0)%Q -> (0 < dy)%Q -> h = 4) /\
  ((dx < 0)%Q -> (0 < dy)%Q -> h = 5) /\
  ((dx < 0)%Q -> (dy == 0)%Q -> h = 6) /\
  ((dx < 0)%Q -> (dy < 0)%Q -> h = 7) /\
  ((dx == 0)%Q -> (dy == 0)%Q -> h = direction s) /\
  ((dx == 1)%Q -> (dy == -1)%Q -> h = 1) /\
  ((dx == -1)%Q -> (dy == 0)%Q -> h = 6).
Proof.
  intros dx dy h. subst h. unfold calculateDirection.
  fold dx. fold dy.
  destruct (Qsign_cases dx) as [[Hx [-> [-> ->]]] | [[Hx [-> [-> ->]]] | [Hx [-> [-> ->]]]]];
  destruct (Qsign_cases dy) as [[Hy [-> [-> ->]]] | [[Hy [-> [-> ->]]] | [Hy [-> [-> ->]]]]];
  simpl; repeat split; intros; first [reflexivity | lra].
Qed.

Lemma calculateDirection_sign_table_witness :
  calculateDirection (newAvatar 0 0 0) (mkVector3 3 3 0) (mkVector3 4 2 0) = 1 /\
  calculateDirection (newAvatar 0 0 0) (mkVector3 3 3 0) (mkVector3 2 3 0) = 6 /\
  calculateDirection (newAvatar 0 0 0) (mkVector3 3 3 0) (mkVector3 3 3 1) = 2.
Proof.
  split; [| split].
  - apply (calculateDirection_sign_table (newAvatar 0 0 0)
             (mkVector3 3 3 0) (mkVector3 4 2 0)); reflexivity.
  - apply (calculateDirection_sign_table (newAvatar 0 0 0)
             (mkVector3 3 3 0) (mkVector3 2 3 0)); reflexivity.
  - apply (calculateDirection_sign_table (newAvatar 0 0 0)
             (mkVector3 3 3 0) (mkVector3 3 3 1)); reflexivity.
Defined.

Lemma map_Vector3_clone (l : list Vector3) : map Vector3_clone l = l.
Proof.
  induction l as [| v l IH]; simpl; [reflexivity |].
  rewrite Vector3_clone_id, IH. reflexivity.
Qed.

Lemma round_proper (x y : Q) : (x == y)%Q -> Math.round x = Math.round y.
Proof.
  intro H. unfold Math.round. f_equal. apply Qfloor_comp. rewrite H.
  reflexivity.
Qed.

(** C2: a [walkTo] with a non-empty path issued while Moving first rounds
    [x] and [y] of the position, each on its own, to the nearest integer
    (so (2.3, 4.7) becomes (2, 5)), and the leg start and the heading are
    computed from the rounded position; issued while Idle, the position is
    used as it is. *)
Theorem walkTo_snap_on_redirect (now : Z) (w : Vector3) (rest : list Vector3)
    (s : HabboAvatarSprite) :
  let p := position s in
  let snapped :=
    mkVector3 (Math.round (vx p)) (Math.round (vy p)) (vz p) in
  let s' := walkTo now (w :: rest) s in
  (isMoving s = true ->
     position s' = snapped /\ moveStartPos s' = snapped /\
     direction s' = calculateDirection s snapped w) /\
  (isMoving s = false ->
     position s' = p /\ moveStartPos s' = p /\
     direction s' = calculateDirection s p w) /\
  (isMoving s' = true /\ currentTarget s' = Some w /\ currentPath s' = rest /\
   moveStartTime s' = now) /\
  ((vx snapped - (1 # 2) <= vx p)%Q /\ (vx p < vx snapped + (1 # 2))%Q /\
   (vy snapped - (1 # 2) <= vy p)%Q /\ (vy p < vy snapped + (1 # 2))%Q) /\
  ((vx p == 23 # 10)%Q -> (vy p == 47 # 10)%Q ->
     vx snapped = 2%Q /\ vy snapped = 5%Q).
Proof.
  intros p snapped s'. subst s'. rewrite walkTo_cons. unfold isMoving.
  fold p. fold snapped. cbv zeta.
  split; [| split; [| split; [| split]]].
  - intros ->. simpl. repeat split.
  - intros ->. simpl. repeat split.
  - simpl. rewrite map_Vector3_clone. repeat split.
  - subst snapped. simpl.
    destruct (round_nearest (vx p)), (round_nearest (vy p)). repeat split; assumption.
  - intros Hx Hy. subst snapped. simpl.
    rewrite (round_proper _ _ Hx), (round_proper _ _ Hy). split; reflexivity.
Qed.

Lemma walkTo_snap_on_redirect_witness :
  let s := set_isWalking true (newAvatar (23 # 10) (47 # 10) 0) in
  let s' := walkTo 0 [mkVector3 4 5 0] s in
  position s' = mkVector3 2 5 0 /\ moveStartPos s' = mkVector3 2 5 0 /\
  direction s' = 2.
Proof.
  exact (proj1 (walkTo_snap_on_redirect 0 (mkVector3 4 5 0) []
                  (set_isWalking true (newAvatar (23 # 10) (47 # 10) 0)))
               eq_refl).
Defined.

(** ** The screen projection *)

(** C8: the container position that [updateScreenPosition] builds from the
    floored tile and the fractional offsets is the affine map
    (32x - 32y + 32 + C, 16x + 16y - 32z), with C = 30 for the headings
    4, 5, 6 and C = -35 otherwise; a step [e] along x moves it by
    (32e, 16e), a step [e] along y by (-32e, 16e), at integers as anywhere
    else; the door-mask formula is [tileToScreen] one tile further in x. *)
Theorem updateScreenPosition_affine (s : HabboAvatarSprite) :
  let p := position s in
  let d := direction s in
  let C : Q := if (d =? 4) || (d =? 5) || (d =? 6) then 30%Q else (-35)%Q in
  let at_ (q : Vector3) := container (updateScreenPosition (set_position q s)) in
  let c := container (updateScreenPosition s) in
  (fst c == 32 * vx p - 32 * vy p + 32 + C)%Q /\
  (snd c == 16 * vx p + 16 * vy p - 32 * vz p)%Q /\
  (forall e : Q,
     (fst (at_ (mkVector3 (vx p + e) (vy p) (vz p))) - fst c == 32 * e)%Q /\
     (snd (at_ (mkVector3 (vx p + e) (vy p) (vz p))) - snd c == 16 * e)%Q) /\
  (forall e : Q,
     (fst (at_ (mkVector3 (vx p) (vy p + e) (vz p))) - fst c == - (32 * e))%Q /\
     (snd (at_ (mkVector3 (vx p) (vy p + e) (vz p))) - snd c == 16 * e)%Q) /\
  (forall doorX doorY doorZ : Q,
     doorMask_tileBase doorX doorY doorZ = tileToScreen (doorX + 1) doorY doorZ).
Proof.
  destruct s as [[x y z] d wk cp ct t0 p0 f c k].
  cbv zeta. unfold updateScreenPosition, set_position, set_container,
    screenPosition, tileToScreen. simpl.
  repeat split; intros; ring.
Qed.

(** ** Runs of [update] calls *)

Lemma run_updates_app (l1 l2 : list Z) (s : HabboAvatarSprite) :
  run_updates (l1 ++ l2) s = run_updates l2 (run_updates l1 s).
Proof. unfold run_updates. apply fold_left_app. Qed.

Lemma run_updates_idle (ts : list Z) (s : HabboAvatarSprite) :
  isWalking s = false -> run_updates ts s = s.
Proof.
  intro H. induction ts as [| now ts IH]; simpl; [reflexivity |].
  rewrite update_idle by exact H. exact IH.
Qed.

(** Readings inside the leg leave the leg itself as it is. *)
Lemma run_updates_insideLeg (ts : list Z) :
  forall (s : HabboAvatarSprite) (t : Vector3),
    isWalking s = true -> currentTarget s = Some t ->
    insideLeg (moveStartTime s) ts ->
    let s' := run_updates ts s in
    isWalking s' = true /\ currentTarget s' = Some t /\
    currentPath s' = currentPath s /\ moveStartTime s' = moveStartTime s /\
    moveStartPos s' = moveStartPos s /\ direction s' = direction s.
Proof.
  induction ts as [| now ts IH]; intros s t Hw Ht Hin; simpl.
  - repeat split; assumption.
  - inversion Hin as [| ? ? Hnow Hrest]; subst.
    pose proof (update_running now s t Hw Ht Hnow) as E. cbv zeta in E.
    destruct (IH (update now s) t) as (A & B & C & D & F & G);
      try (rewrite E; reflexivity).
    { rewrite E. simpl. exact Hrest. }
    rewrite A, B, C, D, F, G, E. simpl. repeat split.
Qed.

(** A run that completes one more leg has a first reading that ends the
    current leg. *)
Lemma legsCompleted_split (ts : list Z) :
  forall (start : Z) (n : nat),
    (S n <= legsCompleted start ts)%nat ->
    exists l a r,
      ts = l ++ a :: r /\ insideLeg start l /\ moveDuration <= a - start /\
      (n <= legsCompleted a r)%nat.
Proof.
  induction ts as [| now ts IH]; intros start n H; simpl in H; [lia |].
  destruct (Z.leb_spec moveDuration (now - start)) as [Hd | Hd].
  - exists [], now, ts. repeat split; [constructor | exact Hd | lia].
  - destruct (IH start n H) as (l & a & r & -> & Hl & Ha & Hn).
    exists (now :: l), a, r. repeat split; try assumption.
    constructor; assumption.
Qed.

Lemma last_nonempty_default {A : Type} (l : list A) (a d d' : A) :
  List.last (a :: l) d = List.last (a :: l) d'.
Proof.
  revert a. induction l as [| b l IH]; intro a; [reflexivity |].
  change (List.last (b :: l) d = List.last (b :: l) d'). apply IH.
Qed.

(** Once a run has completed more legs than waypoints were pending, the
    avatar is Idle on the last waypoint. *)
Lemma run_updates_arrival (ts : list Z) :
  forall (s : HabboAvatarSprite) (t : Vector3),
    isWalking s = true -> currentTarget s = Some t ->
    (length (currentPath s) < legsCompleted (moveStartTime s) ts)%nat ->
    isWalking (run_updates ts s) = false /\
    position (run_updates ts s) = List.last (currentPath s) t.
Proof.
  induction ts as [| now ts IH]; intros s t Hw Ht Hn; simpl in Hn; [lia |].
  simpl. destruct (Z.leb_spec moveDuration (now - moveStartTime s)) as [Hd | Hd].
  - destruct (currentPath s) as [| w r] eqn:Hp.
    + rewrite (update_last_leg now s t Hw Ht Hp Hd).
      rewrite run_updates_idle by reflexivity. simpl. split; reflexivity.
    + pose proof (update_next_leg now s t w r Hw Ht Hp Hd) as E.
      cbv zeta in E. rewrite E.
      destruct (IH (mkAvatar t (calculateDirection s t w) true r (Some w) now
                      t 0 0 (screenPosition t (calculateDirection s t w))) w)
        as [A B]; try reflexivity.
      { simpl in *. lia. }
      split; [exact A |]. rewrite B. simpl currentPath.
      destruct r as [| v r]; [reflexivity |].
      rewrite (last_nonempty_default r v w t). reflexivity.
  - pose proof (update_running now s t Hw Ht Hd) as E. cbv zeta in E.
    destruct (IH (update now s) t) as [A B]; try (rewrite E; reflexivity).
    { rewrite E. simpl. exact Hn. }
    split; [exact A |]. rewrite B, E. reflexivity.
Qed.

(** A whole leg with a successor: readings inside the leg, then the
    reading that ends it. *)
Lemma run_leg_next (l : list Z) (a : Z) (s : HabboAvatarSprite)
    (t w : Vector3) (r : list Vector3) :
  isWalking s = true -> currentTarget s = Some t -> currentPath s = w :: r ->
  insideLeg (moveStartTime s) l -> moveDuration <= a - moveStartTime s ->
  exists d k,
    run_updates (l ++ [a]) s = mkAvatar t d true r (Some w) a t 0 0 k.
Proof.
  intros Hw Ht Hp Hl Ha.
  destruct (run_updates_insideLeg l s t Hw Ht Hl) as (A & B & C & D & _).
  rewrite run_updates_app. simpl.
  rewrite (update_next_leg a (run_updates l s) t w r A B); cbv zeta.
  - eexists _, _. reflexivity.
  - rewrite C. exact Hp.
  - rewrite D. exact Ha.
Qed.

(** The last leg. *)
Lemma run_leg_last (l : list Z) (a : Z) (s : HabboAvatarSprite) (t : Vector3) :
  isWalking s = true -> currentTarget s = Some t -> currentPath s = [] ->
  insideLeg (moveStartTime s) l -> moveDuration <= a - moveStartTime s ->
  exists d k,
    run_updates (l ++ [a]) s =
      mkAvatar t d false [] None (moveStartTime s) (moveStartPos s) 0 0 k.
Proof.
  intros Hw Ht Hp Hl Ha.
  destruct (run_updates_insideLeg l s t Hw Ht Hl) as (A & B & C & D & F & _).
  rewrite run_updates_app. simpl.
  rewrite (update_last_leg a (run_updates l s) t A B).
  - rewrite D, F. eexists _, _. reflexivity.
  - rewrite C. exact Hp.
  - rewrite D. exact Ha.
Qed.

(** ** Claims about [update] *)

(** C1: after [walkTo] with three waypoints, any run of [update] calls in
    which three legs reach their duration (each counted from the call that
    ended the leg before) leaves the avatar Idle, positioned on the third
    waypoint.  The run splits into three legs; the call that ends a leg
    puts the position on that leg's waypoint, and the next leg starts from
    there at that reading; the third such reading is at least three leg
    durations after the [walkTo]. *)
Theorem walk_three_waypoints_arrives (s : HabboAvatarSprite) (t0 : Z)
    (w1 w2 w3 : Vector3) (ts : list Z) :
  (3 <= legsCompleted t0 ts)%nat ->
  let s0 := walkTo t0 [w1; w2; w3] s in
  (isMoving (run_updates ts s0) = false /\
   getPosition (run_updates ts s0) = w3) /\
  exists l1 a1 l2 a2 l3 a3 r,
    ts = l1 ++ a1 :: l2 ++ a2 :: l3 ++ a3 :: r /\
    3 * moveDuration <= a3 - t0 /\
    let s1 := run_updates (l1 ++ [a1]) s0 in
    let s2 := run_updates (l2 ++ [a2]) s1 in
    let s3 := run_updates (l3 ++ [a3]) s2 in
    (getPosition s1 = w1 /\ isMoving s1 = true /\ moveStartPos s1 = w1 /\
     currentTarget s1 = Some w2 /\ moveStartTime s1 = a1) /\
    (getPosition s2 = w2 /\ isMoving s2 = true /\ moveStartPos s2 = w2 /\
     currentTarget s2 = Some w3 /\ moveStartTime s2 = a2) /\
    (getPosition s3 = w3 /\ isMoving s3 = false).
Proof.
  intros H s0. unfold isMoving, getPosition.
  assert (E0 : exists p d k,
             s0 = mkAvatar p d true [w2; w3] (Some w1) t0 p 0 0 k).
  { subst s0. rewrite walkTo_cons. cbv zeta. rewrite map_Vector3_clone.
    eexists _, _, _. reflexivity. }
  destruct E0 as (p & d & k & E0). rewrite E0. clear E0 s0. split.
  - apply (run_updates_arrival ts
             (mkAvatar p d true [w2; w3] (Some w1) t0 p 0 0 k) w1);
      simpl; try reflexivity. lia.
  - destruct (legsCompleted_split ts t0 2 H) as (l1 & a1 & r1 & -> & I1 & D1 & H1).
    destruct (legsCompleted_split r1 a1 1 H1) as (l2 & a2 & r2 & -> & I2 & D2 & H2).
    destruct (legsCompleted_split r2 a2 0 H2) as (l3 & a3 & r & -> & I3 & D3 & _).
    exists l1, a1, l2, a2, l3, a3, r.
    split; [reflexivity |]. split; [unfold moveDuration in *; lia |].
    cbv zeta.
    destruct (run_leg_next l1 a1
                (mkAvatar p d true [w2; w3] (Some w1) t0 p 0 0 k) w1 w2 [w3]
                eq_refl eq_refl eq_refl I1 D1) as (d1 & k1 & ->).
    destruct (run_leg_next l2 a2
                (mkAvatar w1 d1 true [w3] (Some w2) a1 w1 0 0 k1) w2 w3 []
                eq_refl eq_refl eq_refl I2 D2) as (d2 & k2 & ->).
    destruct (run_leg_last l3 a3
                (mkAvatar w2 d2 true [] (Some w3) a2 w2 0 0 k2) w3
                eq_refl eq_refl eq_refl I3 D3) as (d3 & k3 & ->).
    simpl. repeat split.
Qed.

Lemma walk_three_waypoints_arrives_witness :
  let s0 := walkTo 0 [mkVector3 1 0 0; mkVector3 2 1 0; mkVector3 2 2 1]
              (newAvatar 0 0 0) in
  let ts := [200; 400; 600; 900; 1200; 1500; 1800; 2000] in
  isMoving (run_updates ts s0) = false /\
  getPosition (run_updates ts s0) = mkVector3 2 2 1.
Proof.
  refine (proj1 (walk_three_waypoints_arrives (newAvatar 0 0 0) 0
                   (mkVector3 1 0 0) (mkVector3 2 1 0) (mkVector3 2 2 1)
                   [200; 400; 600; 900; 1200; 1500; 1800; 2000] _)).
  vm_compute. lia.
Defined.

(** The time spanned by the calls does not by itself make three legs end:
    with a call every 400 after the [walkTo], the legs end at 800 and at
    1600, and the avatar is still walking the third leg at 1600. *)
Example sparse_updates_still_moving :
  let s0 := walkTo 0 [mkVector3 1 0 0; mkVector3 2 0 0; mkVector3 3 0 0]
              (newAvatar 0 0 0) in
  legsCompleted 0 [400; 800; 1200; 1600] = 2%nat /\
  isMoving (run_updates [400; 800; 1200; 1600] s0) = true /\
  getPosition (run_updates [400; 800; 1200; 1600] s0) = mkVector3 2 0 0.
Proof. vm_compute. repeat split. Qed.

(** The two frame counters after the readings of a run inside one leg. *)
Lemma frame_counters_insideLeg (ts : list Z) :
  forall (s : HabboAvatarSprite) (t : Vector3),
    isWalking s = true -> currentTarget s = Some t ->
    insideLeg (moveStartTime s) ts ->
    0 <= frameUpdateCounter s < frameUpdateInterval ->
    0 <= frameCounter s < 4 ->
    let n := Z.of_nat (length ts) in
    frameUpdateCounter (run_updates ts s) =
      (frameUpdateCounter s + n) mod frameUpdateInterval /\
    frameCounter (run_updates ts s) =
      (frameCounter s + (frameUpdateCounter s + n) / frameUpdateInterval) mod 4.
Proof.
  unfold frameUpdateInterval.
  induction ts as [| now ts IH]; intros s t Hw Ht Hin Hc Hf.
  - simpl. rewrite !Z.add_0_r, Z.mod_small, Z.div_small, Z.add_0_r,
      Z.mod_small by lia. split; reflexivity.
  - inversion Hin as [| ? ? Hnow Hrest]; subst.
    pose proof (update_running now s t Hw Ht Hnow) as E. cbv zeta in E.
    unfold frameUpdateInterval in E.
    change (run_updates (now :: ts) s) with (run_updates ts (update now s)).
    replace (Z.of_nat (length (now :: ts))) with (Z.of_nat (length ts) + 1)
      by (simpl length; lia).
    cbv zeta in IH. set (n := Z.of_nat (length ts)) in *.
    assert (Hn : 0 <= n) by (subst n; lia).
    destruct (Z.leb_spec 3 (frameUpdateCounter s + 1)) as [L | L].
    + assert (Hc2 : frameUpdateCounter s = 2) by lia.
      destruct (IH (update now s) t) as [A B];
        try (rewrite E; simpl; first [reflexivity | exact Hrest | lia]).
      { rewrite E. simpl. rewrite Z.rem_mod_nonneg by lia.
        apply Z.mod_pos_bound. lia. }
      rewrite A, B, E. simpl. rewrite Hc2, Z.rem_mod_nonneg by lia.
      replace (2 + (n + 1)) with (n + 1 * 3) by lia.
      rewrite Z.mod_add, Z.div_add by lia.
      rewrite Z.add_mod_idemp_l by lia.
      rewrite !Z.add_0_l. split; [reflexivity | f_equal; lia].
    + destruct (IH (update now s) t) as [A B];
        try (rewrite E; simpl; first [reflexivity | exact Hrest | lia]).
      rewrite A, B, E. simpl. split; f_equal; [| f_equal; f_equal]; lia.
Qed.

(** C3, as the code has it: the cadence counts the [update] calls that
    fall inside a leg.  After [n] such calls the cadence counter has
    advanced by [n] modulo 3 and the frame index by one for every third
    call, modulo 4 (so from a fresh [walkTo] the frame index is
    [(n / 3) mod 4]); an [update] call that ends a leg puts both counters
    back to 0; an [update] call while Idle changes nothing at all. *)
Theorem frame_cadence_within_leg (s : HabboAvatarSprite) (t : Vector3)
    (ts : list Z) (now : Z) :
  let n := Z.of_nat (length ts) in
  (isMoving s = true -> currentTarget s = Some t ->
   insideLeg (moveStartTime s) ts ->
   0 <= frameUpdateCounter s < frameUpdateInterval ->
   0 <= frameCounter s < 4 ->
   frameUpdateCounter (run_updates ts s) =
     (frameUpdateCounter s + n) mod frameUpdateInterval /\
   frameCounter (run_updates ts s) =
     (frameCounter s + (frameUpdateCounter s + n) / frameUpdateInterval) mod 4 /\
   0 <= frameCounter (run_updates ts s) < 4) /\
  (forall (w : Vector3) (rest : list Vector3),
     insideLeg now ts ->
     frameCounter (run_updates ts (walkTo now (w :: rest) s)) =
       (n / frameUpdateInterval) mod 4) /\
  (isMoving s = true -> currentTarget s = Some t ->
   moveDuration <= now - moveStartTime s ->
   frameCounter (update now s) = 0 /\ frameUpdateCounter (update now s) = 0) /\
  (isMoving s = false -> update now s = s).
Proof.
  intro n. unfold isMoving. split; [| split; [| split]].
  - intros Hw Ht Hin Hc Hf.
    destruct (frame_counters_insideLeg ts s t Hw Ht Hin Hc Hf) as [A B].
    fold n in A, B. rewrite A, B. repeat split.
    + apply Z.mod_pos_bound. lia.
    + apply Z.mod_pos_bound. lia.
  - intros w rest Hin. rewrite walkTo_cons. cbv zeta.
    match goal with
    | |- frameCounter (run_updates ts ?s0) = _ =>
        destruct (frame_counters_insideLeg ts s0 w eq_refl eq_refl Hin)
          as [_ B]; [unfold frameUpdateInterval; simpl; lia | simpl; lia |]
    end.
    rewrite B. reflexivity.
  - intros Hw Ht Hd. destruct (currentPath s) as [| w r] eqn:Hp.
    + rewrite (update_last_leg now s t Hw Ht Hp Hd). split; reflexivity.
    + rewrite (update_next_leg now s t w r Hw Ht Hp Hd). split; reflexivity.
  - apply update_idle.
Qed.

Lemma frame_cadence_within_leg_witness :
  let s := walkTo 0 [mkVector3 1 0 0] (newAvatar 0 0 0) in
  frameUpdateCounter (run_updates [100; 200; 300; 400] s) = 1 /\
  frameCounter (run_updates [100; 200; 300; 400] s) = 1 /\
  0 <= frameCounter (run_updates [100; 200; 300; 400] s) < 4.
Proof.
  apply (proj1 (frame_cadence_within_leg
                  (walkTo 0 [mkVector3 1 0 0] (newAvatar 0 0 0))
                  (mkVector3 1 0 0) [100; 200; 300; 400] 0)).
  - reflexivity.
  - reflexivity.
  - repeat constructor.
  - vm_compute. split; [discriminate | reflexivity].
  - vm_compute. split; [discriminate | reflexivity].
Defined.

(** C3 as it is worded fails at a leg boundary.  Two waypoints, [update]
    calls at 200, 400 and 600 after the [walkTo]: the avatar is Moving
    before and after each of the three calls, yet the frame index is 0
    after them as it was before them; after six calls it is 1, not 2. *)
Lemma frame_cadence_broken_by_leg_end :
  let s := walkTo 0 [mkVector3 1 0 0; mkVector3 2 0 0] (newAvatar 0 0 0) in
  (isMoving s = true /\
   isMoving (run_updates [200] s) = true /\
   isMoving (run_updates [200; 400] s) = true /\
   isMoving (run_updates [200; 400; 600] s) = true) /\
  frameCounter s = 0 /\
  frameCounter (run_updates [200; 400; 600] s) = 0 /\
  frameCounter (run_updates [200; 400; 600] s) <> (frameCounter s + 1) mod 4 /\
  frameCounter (run_updates [200; 400; 600; 700; 800; 900] s) = 1.
Proof. vm_compute. repeat split; discriminate. Qed.

(** C10: inside a leg [update] interpolates [z] by the same rule as [x]
    and [y], with [progress] the elapsed fraction of the leg: [z] is the
    leg-start [z] at elapsed time 0, leaves it as soon as time has passed
    when the waypoint's [z] differs, and is the waypoint's [z] once the
    leg is over.  The rounding of a redirecting [walkTo] touches [x] and
    [y] only: [z] is the one before the call. *)
Theorem update_interpolates_z (s : HabboAvatarSprite) (t : Vector3) (now : Z) :
  isMoving s = true -> currentTarget s = Some t ->
  let a := moveStartPos s in
  let pr := legProgress (moveStartTime s) now in
  (now - moveStartTime s < moveDuration ->
     position (update now s) =
       mkVector3 (lerp (vx a) (vx t) pr) (lerp (vy a) (vy t) pr)
                 (lerp (vz a) (vz t) pr) /\
     (pr == inject_Z (now - moveStartTime s) / inject_Z moveDuration)%Q /\
     (now = moveStartTime s -> (vz (position (update now s)) == vz a)%Q) /\
     (0 < now - moveStartTime s -> ~ (vz t == vz a)%Q ->
        ~ (vz (position (update now s)) == vz a)%Q)) /\
  (moveDuration <= now - moveStartTime s ->
     vz (position (update now s)) = vz t) /\
  (forall (now' : Z) (w : Vector3) (rest : list Vector3),
     let s' := walkTo now' (w :: rest) s in
     vz (position s') = vz (position s) /\
     vx (position s') = Math.round (vx (position s)) /\
     vy (position s') = Math.round (vy (position s)) /\
     moveStartPos s' = position s').
Proof.
  intros Hw Ht a pr. unfold isMoving in Hw. split; [| split].
  - intro Hd. rewrite (update_running now s t Hw Ht Hd). cbv zeta.
    fold a. fold pr. simpl.
    pose proof (legProgress_running _ _ Hd) as Hpr. fold pr in Hpr.
    split; [reflexivity |]. split; [exact Hpr |]. split.
    + intros ->. unfold lerp. rewrite Hpr, Z.sub_diag.
      unfold Qdiv. change (inject_Z 0) with 0%Q. ring.
    + intros Hpos Hne Heq. apply Hne. unfold lerp in Heq.
      assert (Hp0 : (0 < pr)%Q).
      { rewrite Hpr. apply Qlt_shift_div_l; [reflexivity |].
        rewrite Qmult_0_l. change 0%Q with (inject_Z 0).
        rewrite <- Zlt_Qlt. exact Hpos. }
      assert (Hm : ((vz t - vz a) * pr == 0)%Q) by lra.
      apply Qmult_integral in Hm. destruct Hm as [Hm | Hm]; lra.
  - intro Hd. destruct (currentPath s) as [| w r] eqn:Hp.
    + rewrite (update_last_leg now s t Hw Ht Hp Hd). reflexivity.
    + rewrite (update_next_leg now s t w r Hw Ht Hp Hd). reflexivity.
  - intros now' w rest. cbv zeta. rewrite walkTo_cons. cbv zeta.
    rewrite Hw. simpl. repeat split.
Qed.

Lemma update_interpolates_z_witness :
  let s := walkTo 0 [mkVector3 1 0 2] (newAvatar 0 0 0) in
  position (update 250 s) =
    mkVector3 (lerp 0 1 (legProgress 0 250)) (lerp 0 0 (legProgress 0 250))
              (lerp 0 2 (legProgress 0 250)) /\
  (vz (position (update 250 s)) == 1)%Q.
Proof.
  pose proof (update_interpolates_z
                (walkTo 0 [mkVector3 1 0 2] (newAvatar 0 0 0))
                (mkVector3 1 0 2) 250 eq_refl eq_refl) as H.
  cbv zeta in H. destruct H as [H _].
  destruct (H ltac:(reflexivity)) as [E _].
  split; [exact E | rewrite E; reflexivity].
Defined.

(** ** The tile grid of the floorplan editor *)

Section Grid.

Context (ts : list (list Tile)) (gridX gridY : Z) (old : Tile).
Hypothesis Hold : tileAt ts gridX gridY = Some old.

Lemma index_Some {A : Type} (a : list A) (i : Z) (x : A) :
  index a i = Some x -> 0 <= i /\ a !! Z.to_nat i = Some x.
Proof.
  unfold index. destruct (Z.ltb_spec i 0) as [Hi | Hi]; [discriminate |].
  intro Hx. split; [lia | exact Hx].
Qed.

Lemma tileAt_row :
  exists row, index ts gridY = Some row /\ index row gridX = Some old.
Proof.
  unfold tileAt in Hold. destruct (index ts gridY) as [row |] eqn:E;
    [| discriminate].
  exists row. split; [reflexivity | exact Hold].
Qed.

(** Reading back the tile that was written. *)
Lemma tileAt_withTile_same (t : Tile) :
  tileAt (withTile ts gridX gridY t) gridX gridY = Some t.
Proof.
  destruct tileAt_row as (row & Hr & Hc).
  unfold tileAt, withTile. rewrite Hr.
  apply index_Some in Hr as [Hy Hr]. apply index_Some in Hc as [Hx Hc].
  unfold index.
  destruct (Z.ltb_spec gridY 0); [lia |].
  rewrite list_lookup_insert_eq by (eapply lookup_lt_Some; exact Hr).
  destruct (Z.ltb_spec gridX 0); [lia |].
  apply list_lookup_insert_eq. eapply lookup_lt_Some; exact Hc.
Qed.

(** Every other coordinate reads as before. *)
Lemma tileAt_withTile_other (t : Tile) (x y : Z) :
  x <> gridX \/ y <> gridY ->
  tileAt (withTile ts gridX gridY t) x y = tileAt ts x y.
Proof.
  intro Hne. destruct tileAt_row as (row & Hr & Hc).
  unfold tileAt, withTile. rewrite Hr.
  apply index_Some in Hr as [Hy Hr]. apply index_Some in Hc as [Hx Hc].
  unfold index.
  destruct (Z.ltb_spec y 0); [reflexivity |].
  destruct (Z.eq_dec y gridY) as [-> | Hny].
  - rewrite list_lookup_insert_eq by (eapply lookup_lt_Some; exact Hr).
    rewrite Hr. destruct (Z.ltb_spec x 0); [reflexivity |].
    apply list_lookup_insert_ne. lia.
  - rewrite list_lookup_insert_ne by lia. reflexivity.
Qed.

(** A property of all tiles survives the write of a tile that has it. *)
Lemma withTile_Forall (P : Tile -> Prop) (t : Tile) :
  Forall (Forall P) ts -> P t -> Forall (Forall P) (withTile ts gridX gridY t).
Proof.
  intros Hall Ht. destruct tileAt_row as (row & Hr & _).
  unfold withTile. rewrite Hr. apply index_Some in Hr as [_ Hr].
  apply Forall_insert; [exact Hall |].
  apply Forall_insert; [| exact Ht].
  eapply Forall_lookup_1; [exact Hall | exact Hr].
Qed.

End Grid.

(** ** Claims about the floorplan editor *)

Lemma withTile_unchanged (ts : list (list Tile)) (gridX gridY : Z) (t : Tile) :
  tileAt ts gridX gridY = Some t -> withTile ts gridX gridY t = ts.
Proof.
  intro H. destruct (tileAt_row ts gridX gridY t H) as (row & Hr & Hc).
  unfold withTile. rewrite Hr.
  apply index_Some in Hr as [_ Hr]. apply index_Some in Hc as [_ Hc].
  rewrite (list_insert_id row _ _ Hc). apply list_insert_id. exact Hr.
Qed.

(** [renderGrid] gets through exactly when the bounds are covered. *)
Lemma renderedTiles_is_Some (room : RoomData) :
  is_Some (renderedTiles room) <-> gridCovered room.
Proof.
  unfold renderedTiles, gridCovered. rewrite mapM_is_Some, Forall_forall.
  split.
  - intros H x y Hx Hy.
    assert (Hy' : y ∈ seqZ 0 (maxY room + 1)) by (apply elem_of_seqZ; lia).
    specialize (H y Hy'). cbv [compose] in H.
    rewrite mapM_is_Some, Forall_forall in H.
    apply (H x). apply elem_of_seqZ. lia.
  - intros H y Hy. cbv [compose]. rewrite mapM_is_Some, Forall_forall.
    intros x Hx. apply elem_of_seqZ in Hx. apply elem_of_seqZ in Hy.
    cbv [compose]. apply H; lia.
Qed.

Lemma renderGrid_Some (room : RoomData) :
  renderGrid room = Some tt <-> gridCovered room.
Proof.
  rewrite <- renderedTiles_is_Some. unfold renderGrid.
  destruct (renderedTiles room) as [l |]; split; intro H.
  - eexists. reflexivity.
  - reflexivity.
  - discriminate.
  - destruct H as [l H]. discriminate.
Qed.

Lemma renderGrid_is_Some (room : RoomData) (u : unit) :
  renderGrid room = Some u -> gridCovered room.
Proof. destruct u. apply renderGrid_Some. Qed.

(** Writing a tile where there is one changes no tile into a hole. *)
Lemma withTile_domain (ts : list (list Tile)) (gridX gridY : Z) (old t : Tile)
    (x y : Z) :
  tileAt ts gridX gridY = Some old ->
  is_Some (tileAt (withTile ts gridX gridY t) x y) <-> is_Some (tileAt ts x y).
Proof.
  intro H. destruct (Z.eq_dec x gridX) as [-> | Nx];
    [destruct (Z.eq_dec y gridY) as [-> | Ny] |].
  - rewrite (tileAt_withTile_same _ _ _ old H), H. split; intro; eexists; reflexivity.
  - rewrite (tileAt_withTile_other _ _ _ old H) by (right; exact Ny). reflexivity.
  - rewrite (tileAt_withTile_other _ _ _ old H) by (left; exact Nx). reflexivity.
Qed.

(** The [switch] is a write of [clickedTile] at the clicked coordinate, and
    a door assignment when the action is [DOOR] on a walkable tile; the
    bounds stay. *)
Lemma afterSwitch_fields (sc : FloorplanScene) (gridX gridY : Z) (tile : Tile) :
  tileAt (tiles (roomData sc)) gridX gridY = Some tile ->
  let room' := afterSwitch gridX gridY sc tile in
  tiles room' =
    withTile (tiles (roomData sc)) gridX gridY (clickedTile (config sc) tile) /\
  doorTile room' =
    match currentAction (config sc) with
    | DOOR => if walkable tile then Some (gridX, gridY)
              else doorTile (roomData sc)
    | _ => doorTile (roomData sc)
    end /\
  maxX room' = maxX (roomData sc) /\ maxY room' = maxY (roomData sc).
Proof.
  intro H. unfold afterSwitch, clickedTile. cbv zeta.
  destruct (currentAction (config sc)); simpl;
    repeat match goal with
           | |- context [if ?b then _ else _] => destruct b
           end;
    simpl; rewrite ?(withTile_unchanged _ _ _ _ H); repeat split; reflexivity.
Qed.

Lemma afterSwitch_covered (sc : FloorplanScene) (gridX gridY : Z) (tile : Tile) :
  tileAt (tiles (roomData sc)) gridX gridY = Some tile ->
  gridCovered (afterSwitch gridX gridY sc tile) <-> gridCovered (roomData sc).
Proof.
  intro H. destruct (afterSwitch_fields sc gridX gridY tile H) as (Ts & _ & Mx & My).
  cbv zeta in *. unfold gridCovered. rewrite Ts, Mx, My.
  split; intros G x y Hx Hy; specialize (G x y Hx Hy);
    apply (withTile_domain (tiles (roomData sc)) gridX gridY tile
             (clickedTile (config sc) tile) x y H); exact G.
Qed.

Lemma onClick_unfold (sc : FloorplanScene) (gridX gridY : Z) (tile : Tile) :
  tileAt (tiles (roomData sc)) gridX gridY = Some tile ->
  onClick gridX gridY sc =
    match renderGrid (afterSwitch gridX gridY sc tile) with
    | Some _ => Some (mkScene (afterSwitch gridX gridY sc tile) (config sc))
    | None => None
    end.
Proof. intro H. unfold onClick, afterSwitch. cbv zeta. rewrite H. reflexivity. Qed.

(** A click that returns: the tile was there, the bounds are covered, and
    the room is the one the [switch] left. *)
Lemma onClick_inv (sc sc' : FloorplanScene) (gridX gridY : Z) :
  onClick gridX gridY sc = Some sc' ->
  exists tile,
    tileAt (tiles (roomData sc)) gridX gridY = Some tile /\
    gridCovered (roomData sc) /\
    config sc' = config sc /\
    tiles (roomData sc') =
      withTile (tiles (roomData sc)) gridX gridY (clickedTile (config sc) tile) /\
    doorTile (roomData sc') =
      match currentAction (config sc) with
      | DOOR => if walkable tile then Some (gridX, gridY)
                else doorTile (roomData sc)
      | _ => doorTile (roomData sc)
      end /\
    maxX (roomData sc') = maxX (roomData sc) /\
    maxY (roomData sc') = maxY (roomData sc) /\
    roomData sc' = afterSwitch gridX gridY sc tile.
Proof.
  intro H.
  destruct (tileAt (tiles (roomData sc)) gridX gridY) as [tile |] eqn:Ht;
    [| unfold onClick in H; rewrite Ht in H; discriminate].
  rewrite (onClick_unfold sc gridX gridY tile Ht) in H.
  destruct (renderGrid (afterSwitch gridX gridY sc tile)) as [u |] eqn:Er;
    [| discriminate].
  injection H as <-. exists tile. split; [reflexivity |].
  split; [apply (afterSwitch_covered sc gridX gridY tile Ht);
          exact (renderGrid_is_Some _ _ Er) |].
  split; [reflexivity |].
  destruct (afterSwitch_fields sc gridX gridY tile Ht) as (Ts & Dr & Mx & My).
  cbv zeta in *. cbn [roomData]. repeat split; assumption.
Qed.

(** A click on a tile that is there, in a room whose bounds are covered,
    returns. *)
Lemma onClick_Some (sc : FloorplanScene) (gridX gridY : Z) (tile : Tile) :
  tileAt (tiles (roomData sc)) gridX gridY = Some tile ->
  gridCovered (roomData sc) ->
  exists sc',
    onClick gridX gridY sc = Some sc' /\
    config sc' = config sc /\
    tiles (roomData sc') =
      withTile (tiles (roomData sc)) gridX gridY (clickedTile (config sc) tile) /\
    doorTile (roomData sc') =
      match currentAction (config sc) with
      | DOOR => if walkable tile then Some (gridX, gridY)
                else doorTile (roomData sc)
      | _ => doorTile (roomData sc)
      end.
Proof.
  intros H G. rewrite (onClick_unfold sc gridX gridY tile H).
  apply (afterSwitch_covered sc gridX gridY tile H) in G.
  apply renderGrid_Some in G. rewrite G.
  destruct (afterSwitch_fields sc gridX gridY tile H) as (Ts & Dr & _).
  eexists. split; [reflexivity |]. cbn [roomData config].
  split; [reflexivity |]. split; assumption.
Qed.

Lemma clickedTile_height (cfg : FloorplanConfig) (tile : Tile) :
  0 <= currentHeight cfg <= 9 -> heightInRange tile ->
  heightInRange (clickedTile cfg tile).
Proof.
  unfold heightInRange, clickedTile. intros Hc Ht.
  destruct (currentAction cfg); simpl; try lia.
  - destruct (walkable tile); simpl; [| lia].
    destruct (Z.ltb_spec (height tile) 9); simpl; lia.
  - destruct (walkable tile); simpl; [| lia].
    destruct (Z.ltb_spec 0 (height tile)); simpl; lia.
Qed.

Lemma tileAt_Forall (P : Tile -> Prop) (ts : list (list Tile))
    (x y : Z) (t : Tile) :
  Forall (Forall P) ts -> tileAt ts x y = Some t -> P t.
Proof.
  intros Hall H. destruct (tileAt_row ts x y t H) as (row & Hr & Hc).
  apply index_Some in Hr as [_ Hr]. apply index_Some in Hc as [_ Hc].
  eapply Forall_lookup_1; [| exact Hc].
  eapply Forall_lookup_1; [exact Hall | exact Hr].
Qed.

Lemma onClick_heights (sc sc' : FloorplanScene) (gridX gridY : Z) :
  heightsInRange (roomData sc) -> 0 <= currentHeight (config sc) <= 9 ->
  onClick gridX gridY sc = Some sc' ->
  heightsInRange (roomData sc') /\ config sc' = config sc.
Proof.
  intros Hall Hc H.
  destruct (onClick_inv _ _ _ _ H) as (tile & Ht & _ & Hcfg & Hts & _).
  split; [| exact Hcfg].
  unfold heightsInRange. rewrite Hts.
  apply (withTile_Forall _ _ _ tile Ht); [exact Hall |].
  apply clickedTile_height; [exact Hc |].
  exact (tileAt_Forall _ _ _ _ _ Hall Ht).
Qed.

Lemma runCommands_heights (cs : list EditorCommand) :
  forall sc sc' : FloorplanScene,
    heightsInRange (roomData sc) -> 0 <= currentHeight (config sc) <= 9 ->
    Forall validCommand cs -> runCommands cs sc = Some sc' ->
    heightsInRange (roomData sc') /\ 0 <= currentHeight (config sc') <= 9.
Proof.
  induction cs as [| c cs IH]; intros sc sc' Hall Hc Hv H; simpl in H.
  - injection H as <-. split; assumption.
  - inversion Hv as [| ? ? Hc1 Hrest]; subst.
    destruct (runCommand c sc) as [sc1 |] eqn:E; [| discriminate].
    destruct c as [action h | x y]; simpl in E.
    + injection E as <-.
      apply (IH (updateConfig (Some action) (Some h) None sc) sc');
        [exact Hall | exact Hc1 | exact Hrest | exact H].
    + destruct (onClick_heights _ _ _ _ Hall Hc E) as [Hall1 Hcfg].
      apply (IH sc1 sc'); [exact Hall1 | rewrite Hcfg; exact Hc | exact Hrest
                          | exact H].
Qed.

(** C9: with all tile heights in 0..9 and the configured height in 0..9,
    a click leaves all tile heights in 0..9, and so does any sequence of
    clicks and configuration changes to heights in 0..9.  A click on an
    existing tile, in a room that [renderGrid] can draw (a tile at every
    coordinate inside the bounds), returns and changes no other tile; a
    click returns in no other case; [UP] adds 1 exactly
    when the tile is walkable and lower than 9, [DOWN] subtracts 1 exactly
    when the tile is walkable and higher than 0, and otherwise they leave
    the tile as it is. *)
Theorem onClick_keeps_heights (sc : FloorplanScene) (gridX gridY : Z) :
  heightsInRange (roomData sc) -> 0 <= currentHeight (config sc) <= 9 ->
  (forall sc', onClick gridX gridY sc = Some sc' ->
     heightsInRange (roomData sc')) /\
  (forall tile, tileAt (tiles (roomData sc)) gridX gridY = Some tile ->
     renderGrid (roomData sc) = Some tt ->
     exists sc' tile',
       onClick gridX gridY sc = Some sc' /\
       tileAt (tiles (roomData sc')) gridX gridY = Some tile' /\
       0 <= height tile' <= 9 /\
       (forall x y, x <> gridX \/ y <> gridY ->
          tileAt (tiles (roomData sc')) x y = tileAt (tiles (roomData sc)) x y) /\
       (currentAction (config sc) = UP ->
          (walkable tile = true -> height tile < 9 ->
             height tile' = height tile + 1) /\
          (walkable tile = false \/ 9 <= height tile -> tile' = tile)) /\
       (currentAction (config sc) = DOWN ->
          (walkable tile = true -> 0 < height tile ->
             height tile' = height tile - 1) /\
          (walkable tile = false \/ height tile <= 0 -> tile' = tile))) /\
  (forall sc', onClick gridX gridY sc = Some sc' ->
     is_Some (tileAt (tiles (roomData sc)) gridX gridY) /\
     renderGrid (roomData sc) = Some tt) /\
  (forall cs sc', Forall validCommand cs -> runCommands cs sc = Some sc' ->
     heightsInRange (roomData sc')).
Proof.
  intros Hall Hc. split; [| split; [| split]].
  - intros sc' H. apply (onClick_heights sc sc' gridX gridY Hall Hc H).
  - intros tile Ht Hg. apply renderGrid_Some in Hg.
    destruct (onClick_Some sc gridX gridY tile Ht Hg) as (sc' & E & _ & Hts & _).
    exists sc', (clickedTile (config sc) tile).
    split; [exact E |]. rewrite Hts.
    split; [apply (tileAt_withTile_same _ _ _ tile Ht) |].
    split; [apply clickedTile_height;
            [exact Hc | exact (tileAt_Forall _ _ _ _ _ Hall Ht)] |].
    split; [intros x y Hne; apply (tileAt_withTile_other _ _ _ tile Ht _ _ _ Hne) |].
    unfold clickedTile. split; intros ->.
    + split.
      * intros -> Hlt. simpl.
        destruct (Z.ltb_spec (height tile) 9); [reflexivity | lia].
      * intros [-> | Hge]; [reflexivity |].
        destruct (Z.ltb_spec (height tile) 9); [lia |].
        rewrite andb_false_r. reflexivity.
    + split.
      * intros -> Hlt. simpl.
        destruct (Z.ltb_spec 0 (height tile)); [reflexivity | lia].
      * intros [-> | Hge]; [reflexivity |].
        destruct (Z.ltb_spec 0 (height tile)); [lia |].
        rewrite andb_false_r. reflexivity.
  - intros sc' H. destruct (onClick_inv _ _ _ _ H) as (tile & Ht & Hg & _).
    split; [rewrite Ht; eexists; reflexivity | apply renderGrid_Some; exact Hg].
  - intros cs sc' Hv H.
    apply (runCommands_heights cs sc sc' Hall Hc Hv H).
Qed.

Lemma onClick_keeps_heights_witness :
  heightsInRange (mkRoomData 0 0 0 0 0 None [[mkTile 0 0 9 false true]]).
Proof.
  refine (proj1 (onClick_keeps_heights
                   (mkScene (mkRoomData 0 0 0 0 0 None
                               [[mkTile 0 0 8 false true]])
                            (mkConfig UP 0 2)) 0 0 _ _)
                (mkScene (mkRoomData 0 0 0 0 0 None
                            [[mkTile 0 0 9 false true]])
                         (mkConfig UP 0 2)) eq_refl).
  - repeat constructor; simpl; lia.
  - simpl. lia.
Defined.

(** Every click but an [UNSET] on the door tile keeps the door on a
    walkable tile. *)
Lemma onClick_keeps_door (sc sc' : FloorplanScene) (gridX gridY : Z) :
  doorOnWalkable (roomData sc) = true ->
  onClick gridX gridY sc = Some sc' ->
  (currentAction (config sc) = UNSET ->
   doorTile (roomData sc) <> Some (gridX, gridY)) ->
  doorOnWalkable (roomData sc') = true.
Proof.
  intros Hinv H Hguard.
  destruct (onClick_inv _ _ _ _ H) as (tile & Ht & _ & _ & Hts & Hd & _).
  unfold doorOnWalkable in *. rewrite Hts, Hd.
  assert (Hkeep : forall d, doorTile (roomData sc) = d ->
            (currentAction (config sc) = UNSET -> d <> Some (gridX, gridY)) ->
            (walkable tile = true ->
             walkable (clickedTile (config sc) tile) = true \/
             currentAction (config sc) = UNSET) ->
            match d with
            | Some (dx, dy) =>
                match tileAt (withTile (tiles (roomData sc)) gridX gridY
                                (clickedTile (config sc) tile)) dx dy with
                | Some t => walkable t
                | None => false
                end
            | None => true
            end = true).
  { intros [[dx dy] |] Hdoor Hg Hw; [| reflexivity].
    rewrite Hdoor in Hinv.
    destruct (Z.eq_dec dx gridX) as [-> | Hx];
      [destruct (Z.eq_dec dy gridY) as [-> | Hy] |].
    - rewrite (tileAt_withTile_same _ _ _ tile Ht).
      rewrite Ht in Hinv. destruct (Hw Hinv) as [Hok | Hu]; [exact Hok |].
      exfalso. apply (Hg Hu). reflexivity.
    - rewrite (tileAt_withTile_other _ _ _ tile Ht) by (right; exact Hy).
      exact Hinv.
    - rewrite (tileAt_withTile_other _ _ _ tile Ht) by (left; exact Hx).
      exact Hinv. }
  assert (Hwalk : walkable tile = true ->
            walkable (clickedTile (config sc) tile) = true \/
            currentAction (config sc) = UNSET).
  { intro Hw. unfold clickedTile.
    destruct (currentAction (config sc)); simpl; auto;
      rewrite Hw; simpl;
      match goal with
      | |- context [if ?b then _ else _] => destruct b
      end; simpl; auto. }
  destruct (currentAction (config sc)) eqn:Ea;
    try (apply (Hkeep _ eq_refl Hguard Hwalk)).
  destruct (walkable tile) eqn:Hw.
  - rewrite (tileAt_withTile_same _ _ _ tile Ht).
    unfold clickedTile. rewrite Ea. exact Hw.
  - apply (Hkeep _ eq_refl Hguard Hwalk).
Qed.

(** C5 on the code: in the empty room, make tile (0,0) walkable and put
    the door on it; the door is then on a walkable tile.  An [UNSET] click
    on (0,0) makes the tile unwalkable and leaves the door where it was:
    the door is no longer on a walkable tile. *)
Theorem unset_on_door_tile_breaks_door :
  exists sc sc',
    runCommands [Click 0 0; Configure DOOR 0; Click 0 0; Configure UNSET 0]
      newFloorplanScene = Some sc /\
    doorTile (roomData sc) = Some (0, 0) /\
    doorOnWalkable (roomData sc) = true /\
    onClick 0 0 sc = Some sc' /\
    doorTile (roomData sc') = Some (0, 0) /\
    option_map walkable (tileAt (tiles (roomData sc')) 0 0) = Some false /\
    doorOnWalkable (roomData sc') = false.
Proof.
  eexists _, _. split; [vm_compute; reflexivity |].
  split; [reflexivity |]. split; [vm_compute; reflexivity |].
  split; [vm_compute; reflexivity |].
  split; [reflexivity |]. split; vm_compute; reflexivity.
Qed.

(** ** Further properties of the locomotion *)

(** Where a run of [update] calls leaves a walking avatar that has not yet
    completed more legs than waypoints are pending. *)
Lemma run_updates_progress (ts : list Z) :
  forall (s : HabboAvatarSprite) (t : Vector3),
    isWalking s = true -> currentTarget s = Some t ->
    (legsCompleted (moveStartTime s) ts <= length (currentPath s))%nat ->
    let k := legsCompleted (moveStartTime s) ts in
    let s' := run_updates ts s in
    isWalking s' = true /\
    currentTarget s' = (t :: currentPath s) !! k /\
    currentPath s' = drop k (currentPath s).
Proof.
  induction ts as [| now ts IH]; intros s t Hw Ht Hk; simpl in Hk |- *.
  - repeat split; assumption.
  - destruct (Z.leb_spec moveDuration (now - moveStartTime s)) as [Hd | Hd].
    + destruct (currentPath s) as [| w r] eqn:Hp; [simpl in Hk; lia |].
      pose proof (update_next_leg now s t w r Hw Ht Hp Hd) as E.
      cbv zeta in E. rewrite E.
      destruct (IH (mkAvatar t (calculateDirection s t w) true r (Some w) now
                      t 0 0 (screenPosition t (calculateDirection s t w))) w)
        as (A & B & C); try reflexivity.
      { simpl in *. lia. }
      simpl in A, B, C. rewrite A, B, C. repeat split.
    + pose proof (update_running now s t Hw Ht Hd) as E. cbv zeta in E.
      destruct (IH (update now s) t) as (A & B & C);
        try (rewrite E; reflexivity).
      { rewrite E. simpl. exact Hk. }
      rewrite A, B, C, E. simpl. repeat split.
Qed.

(** On arrival nothing is left pending. *)
Lemma run_updates_arrival_clear (ts : list Z) :
  forall (s : HabboAvatarSprite) (t : Vector3),
    isWalking s = true -> currentTarget s = Some t ->
    (length (currentPath s) < legsCompleted (moveStartTime s) ts)%nat ->
    currentTarget (run_updates ts s) = None /\
    currentPath (run_updates ts s) = [].
Proof.
  induction ts as [| now ts IH]; intros s t Hw Ht Hn; simpl in Hn; [lia |].
  simpl. destruct (Z.leb_spec moveDuration (now - moveStartTime s)) as [Hd | Hd].
  - destruct (currentPath s) as [| w r] eqn:Hp.
    + rewrite (update_last_leg now s t Hw Ht Hp Hd).
      rewrite run_updates_idle by reflexivity. split; reflexivity.
    + pose proof (update_next_leg now s t w r Hw Ht Hp Hd) as E.
      cbv zeta in E. rewrite E.
      apply (IH (mkAvatar t (calculateDirection s t w) true r (Some w) now
                   t 0 0 (screenPosition t (calculateDirection s t w))) w);
        try reflexivity.
      simpl in *. lia.
  - pose proof (update_running now s t Hw Ht Hd) as E. cbv zeta in E.
    apply (IH (update now s) t); try (rewrite E; reflexivity).
    rewrite E. simpl. exact Hn.
Qed.

Lemma walkTo_any_path_outcome_core (s : HabboAvatarSprite) (t0 : Z)
    (w : Vector3) (rest : list Vector3) (ts : list Z) :
  let path := w :: rest in
  let k := legsCompleted t0 ts in
  let s' := run_updates ts (walkTo t0 path s) in
  ((k < length path)%nat ->
     isMoving s' = true /\ currentTarget s' = path !! k /\
     currentPath s' = drop (S k) path) /\
  ((length path <= k)%nat ->
     isMoving s' = false /\ getPosition s' = List.last path w /\
     currentTarget s' = None /\ currentPath s' = []).
Proof.
  intros path k s'. subst s' path. rewrite walkTo_cons. cbv zeta.
  rewrite map_Vector3_clone.
  match goal with
  | |- context [run_updates ts ?s0] => set (s0' := s0)
  end.
  split; intro Hk.
  - destruct (run_updates_progress ts s0' w eq_refl eq_refl) as (A & B & C).
    { simpl in *. fold k. lia. }
    simpl in B, C. fold k in B, C. unfold isMoving.
    rewrite A, B, C. repeat split.
  - destruct (run_updates_arrival ts s0' w eq_refl eq_refl) as [A B].
    { simpl in *. fold k. lia. }
    destruct (run_updates_arrival_clear ts s0' w eq_refl eq_refl) as [C D].
    { simpl in *. fold k. lia. }
    unfold isMoving, getPosition. rewrite A, B, C, D. simpl currentPath.
    split; [reflexivity |]. split; [| split; reflexivity].
    destruct rest as [| v r]; reflexivity.
Qed.

(** X1: for a path of any length, the avatar is still walking exactly as
    long as the run has completed fewer legs than the path has waypoints:
    then it heads for the waypoint numbered by the completed legs; once
    the run has completed as many legs as there are waypoints, it is Idle
    on the last waypoint with nothing pending. *)
Theorem walkTo_any_path_outcome (s : HabboAvatarSprite) (t0 : Z)
    (w : Vector3) (rest : list Vector3) (ts : list Z) :
  let path := w :: rest in
  let k := legsCompleted t0 ts in
  let s' := run_updates ts (walkTo t0 path s) in
  ((k < length path)%nat ->
     isMoving s' = true /\ currentTarget s' = path !! k /\
     currentPath s' = drop (S k) path) /\
  ((length path <= k)%nat ->
     isMoving s' = false /\ getPosition s' = List.last path w /\
     currentTarget s' = None /\ currentPath s' = []).
Proof. exact (walkTo_any_path_outcome_core s t0 w rest ts). Qed.

Lemma walkTo_any_path_outcome_witness :
  let path := [mkVector3 1 0 0; mkVector3 2 0 0; mkVector3 3 0 0;
               mkVector3 4 0 0] in
  let s' := run_updates [400; 800; 1200; 1600]
              (walkTo 0 path (newAvatar 0 0 0)) in
  isMoving s' = true /\ currentTarget s' = Some (mkVector3 3 0 0) /\
  currentPath s' = [mkVector3 4 0 0].
Proof.
  apply (proj1 (walkTo_any_path_outcome (newAvatar 0 0 0) 0
                  (mkVector3 1 0 0)
                  [mkVector3 2 0 0; mkVector3 3 0 0; mkVector3 4 0 0]
                  [400; 800; 1200; 1600])).
  vm_compute. lia.
Defined.

(** A run that completes [n] legs contains a reading at least [n] leg
    durations after the start. *)
Lemma legsCompleted_needs_time (n : nat) :
  forall (ts : list Z) (start : Z),
    (S n <= legsCompleted start ts)%nat ->
    exists a, a ∈ ts /\ Z.of_nat (S n) * moveDuration <= a - start.
Proof.
  induction n as [| n IH]; intros ts start H;
    destruct (legsCompleted_split ts start _ H) as (l & a & r & -> & _ & Ha & Hn).
  - exists a. split; [| unfold moveDuration in *; lia].
    apply elem_of_app. right. apply elem_of_cons. left. reflexivity.
  - destruct (IH r a Hn) as (b & Hb & Hd).
    exists b. split; [| unfold moveDuration in *; lia].
    apply elem_of_app. right. apply elem_of_cons. right. exact Hb.
Qed.

(** X2: a walk over [n] waypoints is never over before [n] leg durations
    have passed on the clock: while every reading of the run is earlier
    than that, the avatar is still Moving. *)
Theorem walk_needs_full_durations (s : HabboAvatarSprite) (t0 : Z)
    (w : Vector3) (rest : list Vector3) (ts : list Z) :
  Forall (fun now => now - t0 < Z.of_nat (length (w :: rest)) * moveDuration) ts ->
  isMoving (run_updates ts (walkTo t0 (w :: rest) s)) = true.
Proof.
  intro Hall.
  apply (proj1 (walkTo_any_path_outcome_core s t0 w rest ts)).
  destruct (Nat.lt_ge_cases (legsCompleted t0 ts) (length (w :: rest)))
    as [Hlt | Hge]; [exact Hlt | exfalso].
  simpl length in *.
  destruct (legsCompleted_needs_time (length rest) ts t0 Hge) as (a & Ha & Hd).
  rewrite Forall_forall in Hall. specialize (Hall a Ha). simpl in Hall. lia.
Qed.

Lemma walk_needs_full_durations_witness :
  isMoving (run_updates [300; 700; 999]
              (walkTo 0 [mkVector3 1 0 0; mkVector3 2 0 0] (newAvatar 0 0 0)))
  = true.
Proof.
  apply (walk_needs_full_durations (newAvatar 0 0 0) 0 (mkVector3 1 0 0)
           [mkVector3 2 0 0] [300; 700; 999]).
  repeat constructor.
Defined.

Lemma calculateDirection_range (s : HabboAvatarSprite) (a b : Vector3) :
  0 <= direction s <= 7 -> 0 <= calculateDirection s a b <= 7.
Proof.
  intro H. unfold calculateDirection.
  repeat match goal with
         | |- context [if ?c then _ else _] => destruct c
         end; lia.
Qed.

Lemma consistent_walkTo (now : Z) (path : list Vector3) (s : HabboAvatarSprite) :
  consistent s -> consistent (walkTo now path s).
Proof.
  intros (H1 & H2 & H3 & H4).
  destruct path as [| w rest]; [exact (conj H1 (conj H2 (conj H3 H4))) |].
  rewrite walkTo_cons. cbv zeta. unfold consistent, frameUpdateInterval. simpl.
  split; [discriminate |]. split; [lia |]. split; [lia |].
  apply calculateDirection_range. exact H4.
Qed.

Lemma consistent_stop (s : HabboAvatarSprite) : consistent s -> consistent (stop s).
Proof.
  intros (H1 & H2 & H3 & H4). unfold consistent, frameUpdateInterval.
  destruct s; simpl in *. repeat split; lia.
Qed.

Lemma consistent_update (now : Z) (s : HabboAvatarSprite) :
  consistent s -> consistent (update now s).
Proof.
  intros (H1 & H2 & H3 & H4).
  destruct (isWalking s) eqn:Hw;
    [| rewrite update_idle by exact Hw; unfold consistent; rewrite Hw;
       repeat split; tauto || lia].
  destruct (currentTarget s) as [t |] eqn:Ht; [| congruence].
  unfold frameUpdateInterval in *.
  destruct (Z.leb_spec moveDuration (now - moveStartTime s)) as [Hd | Hd].
  - destruct (currentPath s) as [| w r] eqn:Hp.
    + rewrite (update_last_leg now s t Hw Ht Hp Hd).
      unfold consistent, frameUpdateInterval. simpl. repeat split; lia.
    + rewrite (update_next_leg now s t w r Hw Ht Hp Hd). cbv zeta.
      unfold consistent, frameUpdateInterval. simpl.
      split; [discriminate |]. split; [lia |]. split; [lia |].
      apply calculateDirection_range. exact H4.
  - rewrite (update_running now s t Hw Ht Hd). cbv zeta.
    unfold consistent, frameUpdateInterval. simpl.
    split; [discriminate |].
    destruct (Z.leb_spec 3 (frameUpdateCounter s + 1)).
    + split; [lia |]. split; [| lia].
      rewrite Z.rem_mod_nonneg by lia. apply Z.mod_pos_bound. lia.
    + repeat split; lia.
Qed.

(** X3: whatever sequence of [walkTo], [stop] and [update] calls a newly
    built avatar receives, it is Moving exactly when it has a leg target;
    when Idle it has no pending waypoint and both frame counters are 0;
    the cadence counter stays in 0..2, the frame index in 0..3 and the
    heading in 0..7. *)
Theorem avatar_calls_keep_consistent (startX startY startZ : Q)
    (cs : list AvatarCall) :
  let s := runCalls cs (newAvatar startX startY startZ) in
  consistent s /\
  (isMoving s = true <-> currentTarget s <> None).
Proof.
  cbv zeta.
  assert (H : consistent (runCalls cs (newAvatar startX startY startZ))).
  { unfold runCalls. rewrite <- fold_left_rev_right.
    induction (rev cs) as [| c l IH]; simpl.
    - unfold consistent, frameUpdateInterval. simpl. repeat split; lia.
    - destruct c; simpl;
        [apply consistent_walkTo | apply consistent_stop
        | apply consistent_update]; exact IH. }
  split; [exact H |]. destruct H as (H1 & _). unfold isMoving.
  destruct (isWalking _); split; intro Hx; try tauto; try discriminate.
Qed.

Lemma lerp_between (a b pr : Q) :
  (0 <= pr)%Q -> (pr <= 1)%Q -> between a (lerp a b pr) b.
Proof.
  intros H0 H1. unfold between, lerp.
  destruct (Qlt_le_dec b a) as [Hba | Hab]; [right | left]; split; nra.
Qed.

(** X4: while the clock is inside the leg and not before its start, the
    interpolated position never leaves the segment from the leg start to
    the leg target: each coordinate lies between the two. *)
Theorem update_stays_on_segment (s : HabboAvatarSprite) (t : Vector3) (now : Z) :
  isMoving s = true -> currentTarget s = Some t ->
  0 <= now - moveStartTime s < moveDuration ->
  let p := getPosition (update now s) in
  let a := moveStartPos s in
  between (vx a) (vx p) (vx t) /\
  between (vy a) (vy p) (vy t) /\
  between (vz a) (vz p) (vz t).
Proof.
  intros Hw Ht [H0 H1]. unfold isMoving in Hw. cbv zeta. unfold getPosition.
  rewrite (update_running now s t Hw Ht H1). cbv zeta. simpl.
  pose proof (legProgress_running _ _ H1) as Hpr.
  assert (Hlo : (0 <= legProgress (moveStartTime s) now)%Q).
  { rewrite Hpr. apply Qle_shift_div_l; [reflexivity |].
    rewrite Qmult_0_l. change 0%Q with (inject_Z 0).
    rewrite <- Zle_Qle. exact H0. }
  assert (Hhi : (legProgress (moveStartTime s) now <= 1)%Q).
  { unfold legProgress, Math.min. apply Q.le_min_r. }
  repeat split; apply lerp_between; assumption.
Qed.

Lemma update_stays_on_segment_witness :
  let s := walkTo 0 [mkVector3 1 (-2) 3] (newAvatar 0 0 0) in
  between 0 (vx (getPosition (update 100 s))) 1 /\
  between 0 (vy (getPosition (update 100 s))) (-2) /\
  between 0 (vz (getPosition (update 100 s))) 3.
Proof.
  apply (update_stays_on_segment
           (walkTo 0 [mkVector3 1 (-2) 3] (newAvatar 0 0 0))
           (mkVector3 1 (-2) 3) 100).
  - reflexivity.
  - reflexivity.
  - vm_compute. split; [discriminate | reflexivity].
Defined.

(** X5: inside a leg the position and the container depend on the clock
    reading of the last [update] call only, not on how many calls came
    before it in the same leg. *)
Theorem update_position_ignores_history (s : HabboAvatarSprite) (t : Vector3)
    (l : list Z) (now : Z) :
  isMoving s = true -> currentTarget s = Some t ->
  insideLeg (moveStartTime s) l ->
  now - moveStartTime s < moveDuration ->
  getPosition (run_updates (l ++ [now]) s) = getPosition (update now s) /\
  container (run_updates (l ++ [now]) s) = container (update now s).
Proof.
  intros Hw Ht Hl Hd. unfold isMoving in Hw. unfold getPosition.
  destruct (run_updates_insideLeg l s t Hw Ht Hl) as (A & B & _ & D & F & G).
  rewrite run_updates_app. simpl.
  rewrite (update_running now (run_updates l s) t A B) by (rewrite D; exact Hd).
  rewrite (update_running now s t Hw Ht Hd). cbv zeta. simpl.
  rewrite D, F, G. split; reflexivity.
Qed.

Lemma update_position_ignores_history_witness :
  let s := walkTo 0 [mkVector3 4 0 0] (newAvatar 0 0 0) in
  getPosition (run_updates [10; 20; 30; 250] s) = getPosition (update 250 s) /\
  container (run_updates [10; 20; 30; 250] s) = container (update 250 s).
Proof.
  apply (update_position_ignores_history
           (walkTo 0 [mkVector3 4 0 0] (newAvatar 0 0 0))
           (mkVector3 4 0 0) [10; 20; 30] 250).
  - reflexivity.
  - reflexivity.
  - repeat constructor.
  - reflexivity.
Defined.

(** X6: the sprite is drawn mirrored exactly for the headings 4, 5 and 6,
    and these are the headings for which [updateScreenPosition] shifts
    the container by +30 rather than -35; for a heading in 0..7 the
    artwork heading is one of 0, 1, 2, 3, 7. *)
Theorem sprite_mirroring_matches_offset (p : Vector3) (dir : Z) :
  (snd (spriteFacing dir) = true <-> dir = 4 \/ dir = 5 \/ dir = 6) /\
  (fst (screenPosition p dir) ==
     32 * vx p - 32 * vy p + 32 +
     (if snd (spriteFacing dir) then 30 else -35))%Q /\
  (0 <= dir <= 7 ->
     fst (spriteFacing dir) = 0 \/ fst (spriteFacing dir) = 1 \/
     fst (spriteFacing dir) = 2 \/ fst (spriteFacing dir) = 3 \/
     fst (spriteFacing dir) = 7).
Proof.
  unfold spriteFacing, screenPosition, tileToScreen.
  destruct (Z.eqb_spec dir 4) as [-> | H4]; simpl.
  { split; [split; auto |]. split; [ring | intros _; auto]. }
  destruct (Z.eqb_spec dir 5) as [-> | H5]; simpl.
  { split; [split; auto |]. split; [ring | intros _; auto]. }
  destruct (Z.eqb_spec dir 6) as [-> | H6]; simpl.
  { split; [split; auto |]. split; [ring | intros _; auto]. }
  split; [split; [discriminate | lia] |]. split; [ring | lia].
Qed.

Lemma sprite_mirroring_matches_offset_witness :
  fst (spriteFacing 5) = 0 \/ fst (spriteFacing 5) = 1 \/
  fst (spriteFacing 5) = 2 \/ fst (spriteFacing 5) = 3 \/
  fst (spriteFacing 5) = 7.
Proof.
  apply (sprite_mirroring_matches_offset (mkVector3 0 0 0) 5). lia.
Defined.

Lemma Qfloor_unique (y : Q) (m : Z) :
  (inject_Z m <= y)%Q -> (y < inject_Z (m + 1))%Q -> Qfloor y = m.
Proof.
  intros Hlo Hhi.
  assert (H1 : m <= Qfloor y).
  { rewrite <- (Qfloor_Z m). apply Qfloor_resp_le. exact Hlo. }
  assert (H2 : Qfloor y < m + 1).
  { rewrite Zlt_Qlt. eapply Qle_lt_trans; [apply Qfloor_le | exact Hhi]. }
  lia.
Qed.

Lemma inject_Z_inj (a b : Z) : inject_Z a = inject_Z b -> a = b.
Proof. intro H. injection H as ->. reflexivity. Qed.

(** Rounding agrees with flooring exactly below the half. *)
Lemma round_eq_floor (x : Q) :
  Math.round x = Math.floor x <-> (x - Math.floor x < 1 # 2)%Q.
Proof.
  unfold Math.round, Math.floor.
  pose proof (Qfloor_le x) as Hlo. pose proof (Qlt_floor x) as Hhi.
  rewrite inject_Z_plus in Hhi. change (inject_Z 1) with 1%Q in Hhi.
  split.
  - intro H. apply inject_Z_inj in H.
    pose proof (Qlt_floor (x + (1 # 2))) as Hr. rewrite H in Hr.
    rewrite inject_Z_plus in Hr. change (inject_Z 1) with 1%Q in Hr. lra.
  - intro H. f_equal. apply Qfloor_unique.
    + lra.
    + rewrite inject_Z_plus. change (inject_Z 1) with 1%Q. lra.
Qed.

Lemma floor_round (x : Q) : Math.floor (Math.round x) = Math.round x.
Proof. unfold Math.floor, Math.round. rewrite Qfloor_Z. reflexivity. Qed.

Lemma round_floor_succ (x : Q) :
  (1 # 2 <= x - Math.floor x)%Q -> (Math.round x == Math.floor x + 1)%Q.
Proof.
  unfold Math.round, Math.floor. intro H.
  pose proof (Qfloor_le x) as Hlo. pose proof (Qlt_floor x) as Hhi.
  rewrite inject_Z_plus in Hhi. change (inject_Z 1) with 1%Q in Hhi.
  rewrite (Qfloor_unique (x + (1 # 2)) (Qfloor x + 1)).
  - rewrite inject_Z_plus. reflexivity.
  - rewrite inject_Z_plus. change (inject_Z 1) with 1%Q. lra.
  - rewrite !inject_Z_plus. change (inject_Z 1) with 1%Q. lra.
Qed.

(** X7: the tile reported by [getTilePosition] (a floor) and the tile a
    redirecting [walkTo] snaps to (a rounding) are the same tile exactly
    when both fractional parts are below one half; from the upper half of
    a tile the snap moves the avatar onto the next tile. *)
Theorem redirect_snap_versus_tile (now : Z) (w : Vector3) (rest : list Vector3)
    (s : HabboAvatarSprite) :
  isMoving s = true ->
  let p := position s in
  let s' := walkTo now (w :: rest) s in
  (getTilePosition s' = getTilePosition s <->
     (vx p - Math.floor (vx p) < 1 # 2)%Q /\
     (vy p - Math.floor (vy p) < 1 # 2)%Q) /\
  ((1 # 2 <= vx p - Math.floor (vx p))%Q ->
     (fst (getTilePosition s') == fst (getTilePosition s) + 1)%Q) /\
  ((1 # 2 <= vy p - Math.floor (vy p))%Q ->
     (snd (getTilePosition s') == snd (getTilePosition s) + 1)%Q).
Proof.
  intros Hw p s'. subst s'. unfold isMoving in Hw. unfold getTilePosition.
  rewrite walkTo_cons. cbv zeta. rewrite Hw.
  cbn [position fst snd vx vy vz]. fold p.
  rewrite !floor_round. split; [| split].
  - rewrite <- !round_eq_floor. split.
    + intro H. split; [exact (f_equal fst H) | exact (f_equal snd H)].
    + intros [-> ->]. reflexivity.
  - apply round_floor_succ.
  - apply round_floor_succ.
Qed.

Lemma redirect_snap_versus_tile_witness :
  let s := set_isWalking true (newAvatar (27 # 10) (42 # 10) 0) in
  (fst (getTilePosition (walkTo 0 [mkVector3 5 5 0] s)) ==
   fst (getTilePosition s) + 1)%Q.
Proof.
  refine (proj1 (proj2 (redirect_snap_versus_tile 0 (mkVector3 5 5 0) []
            (set_isWalking true (newAvatar (27 # 10) (42 # 10) 0)) eq_refl)) _).
  vm_compute. discriminate.
Defined.

(** ** Further properties of the floorplan editor *)

Lemma lookup_map {A B : Type} (f : A -> B) (l : list A) (i : nat) :
  map f l !! i = option_map f (l !! i).
Proof. exact (list_lookup_fmap f l i). Qed.

Lemma createEmptyRoom_tileAt_core (x y : Z) :
  tileAt (tiles createEmptyRoom) x y =
    if (0 <=? x) && (x <? MAX_TILES) && (0 <=? y) && (y <? MAX_TILES)
    then Some (mkTile x y 0 false false)
    else None.
Proof.
  unfold tileAt, index, MAX_TILES.
  cbv beta iota delta [createEmptyRoom tiles]. unfold MAX_TILES.
  destruct (Z.ltb_spec y 0) as [Hy | Hy].
  { destruct (Z.leb_spec 0 y); [lia |]. rewrite andb_false_r. reflexivity. }
  destruct (Z.leb_spec 0 y) as [_ | ?]; [| lia].
  rewrite lookup_map.
  destruct (Z.ltb_spec y 64) as [Hy' | Hy'].
  - rewrite lookup_seqZ_lt by lia. cbn [option_map].
    destruct (Z.ltb_spec x 0) as [Hx | Hx].
    { destruct (Z.leb_spec 0 x); [lia |]. reflexivity. }
    destruct (Z.leb_spec 0 x) as [_ | ?]; [| lia].
    rewrite lookup_map.
    destruct (Z.ltb_spec x 64) as [Hx' | Hx'].
    + rewrite lookup_seqZ_lt by lia. cbn [option_map andb].
      f_equal. f_equal; lia.
    + rewrite lookup_seqZ_ge by lia. reflexivity.
  - rewrite lookup_seqZ_ge by lia. cbn [option_map].
    rewrite andb_false_r. reflexivity.
Qed.

(** X8: the room built by [createEmptyRoom] holds, at every coordinate of
    the 64 x 64 square, the unwalkable tile of height 0 carrying that
    coordinate, and no tile anywhere else. *)
Theorem createEmptyRoom_tileAt (x y : Z) :
  tileAt (tiles createEmptyRoom) x y =
    if (0 <=? x) && (x <? MAX_TILES) && (0 <=? y) && (y <? MAX_TILES)
    then Some (mkTile x y 0 false false)
    else None.
Proof. exact (createEmptyRoom_tileAt_core x y). Qed.

Lemma createEmptyRoom_editorRoom : editorRoom createEmptyRoom.
Proof.
  split; [reflexivity |]. split; [reflexivity |]. split.
  - intros x y Hx Hy.
    exists (mkTile x y 0 false false). rewrite createEmptyRoom_tileAt_core.
    destruct (Z.leb_spec 0 x); [| lia]. destruct (Z.ltb_spec x MAX_TILES); [| lia].
    destruct (Z.leb_spec 0 y); [| lia]. destruct (Z.ltb_spec y MAX_TILES); [| lia].
    simpl. repeat split.
  - intros x y Hout. rewrite createEmptyRoom_tileAt_core.
    destruct (Z.leb_spec 0 x); [| reflexivity].
    destruct (Z.ltb_spec x MAX_TILES); [| reflexivity].
    destruct (Z.leb_spec 0 y); [| reflexivity].
    destruct (Z.ltb_spec y MAX_TILES); [| reflexivity].
    exfalso. apply Hout. lia.
Qed.

Lemma onClick_bounds (sc sc' : FloorplanScene) (gridX gridY : Z) :
  onClick gridX gridY sc = Some sc' ->
  maxX (roomData sc') = maxX (roomData sc) /\
  maxY (roomData sc') = maxY (roomData sc).
Proof.
  intro H. destruct (onClick_inv _ _ _ _ H) as (_ & _ & _ & _ & _ & _ & Mx & My & _).
  split; assumption.
Qed.

Lemma clickedTile_keeps (cfg : FloorplanConfig) (tile : Tile) :
  (walkable tile = false -> height tile = 0) ->
  tile_x (clickedTile cfg tile) = tile_x tile /\
  tile_y (clickedTile cfg tile) = tile_y tile /\
  isBlocked (clickedTile cfg tile) = isBlocked tile /\
  (walkable (clickedTile cfg tile) = false -> height (clickedTile cfg tile) = 0).
Proof.
  intro H. unfold clickedTile.
  destruct (currentAction cfg); simpl;
    repeat match goal with
           | |- context [if ?b then _ else _] => destruct b eqn:?
           end; simpl; repeat split; auto; try discriminate;
    intro Hw; rewrite Hw in *; simpl in *; discriminate.
Qed.

Lemma onClick_editorRoom (sc sc' : FloorplanScene) (gridX gridY : Z) :
  editorRoom (roomData sc) -> onClick gridX gridY sc = Some sc' ->
  editorRoom (roomData sc').
Proof.
  intros (Hmx & Hmy & Hall & Hout) H.
  destruct (onClick_bounds _ _ _ _ H) as [Bx By].
  split; [congruence |]. split; [congruence |].
  destruct (onClick_inv _ _ _ _ H) as (tile & Ht & _ & _ & Hts & _).
  rewrite Hts.
  assert (Hin : 0 <= gridX < MAX_TILES /\ 0 <= gridY < MAX_TILES).
  { destruct (Z.le_gt_cases 0 gridX), (Z.lt_ge_cases gridX MAX_TILES),
      (Z.le_gt_cases 0 gridY), (Z.lt_ge_cases gridY MAX_TILES);
      try (split; lia);
      rewrite (Hout gridX gridY) in Ht by lia; discriminate. }
  split.
  - intros x y Hx Hy.
    destruct (Z.eq_dec x gridX) as [-> | Nx];
      [destruct (Z.eq_dec y gridY) as [-> | Ny] |].
    + rewrite (tileAt_withTile_same _ _ _ tile Ht).
      destruct (Hall gridX gridY Hx Hy) as (t & Et & T1 & T2 & T3 & T4).
      rewrite Ht in Et. injection Et as <-.
      destruct (clickedTile_keeps (config sc) tile T4) as (K1 & K2 & K3 & K4).
      eexists. split; [reflexivity |]. repeat split; congruence || exact K4.
    + rewrite (tileAt_withTile_other _ _ _ tile Ht) by (right; exact Ny).
      apply Hall; assumption.
    + rewrite (tileAt_withTile_other _ _ _ tile Ht) by (left; exact Nx).
      apply Hall; assumption.
  - intros x y Hxy.
    rewrite (tileAt_withTile_other _ _ _ tile Ht) by lia.
    apply Hout. exact Hxy.
Qed.

Lemma editorRoom_covered (room : RoomData) : editorRoom room -> gridCovered room.
Proof.
  intros (Mx & My & Hall & _) x y Hx Hy. rewrite Mx in Hx. rewrite My in Hy.
  destruct (Hall x y) as (t & Et & _); try lia. rewrite Et. eexists. reflexivity.
Qed.

Lemma pointerTile_range (room : RoomData) (px py : Q) :
  0 <= maxX room -> 0 <= maxY room ->
  0 <= fst (pointerTile room px py) <= maxX room /\
  0 <= snd (pointerTile room px py) <= maxY room.
Proof. intros Hx Hy. unfold pointerTile. simpl. lia. Qed.

Lemma processTileAction_editorRoom (px py : Q) (st : FloorplanPointer) :
  editorRoom (roomData (scene st)) ->
  exists st', processTileAction px py st = Some st' /\
              editorRoom (roomData (scene st')) /\
              isHolding st' = isHolding st.
Proof.
  intro Hinv. pose proof Hinv as (Hmx & Hmy & Hall & _).
  unfold processTileAction.
  destruct (pointerTile_range (roomData (scene st)) px py) as [Rx Ry];
    try (rewrite ?Hmx, ?Hmy; unfold MAX_TILES; lia).
  destruct (pointerTile (roomData (scene st)) px py) as [gx gy].
  simpl in Rx, Ry. rewrite Hmx in Rx. rewrite Hmy in Ry.
  destruct (_ && _);
    [exists st; split; [reflexivity | split; [exact Hinv | reflexivity]] |].
  destruct (Hall gx gy) as (t & Et & _); try lia.
  destruct (onClick_Some (scene st) gx gy t Et (editorRoom_covered _ Hinv))
    as (sc' & E & _).
  rewrite E. eexists. split; [reflexivity |]. simpl.
  split; [| reflexivity]. apply (onClick_editorRoom _ _ _ _ Hinv E).
Qed.

Lemma editor_events_never_fail_core (es : list EditorEvent) :
  exists st, runEvents es newFloorplanPointer = Some st /\
             editorRoom (roomData (scene st)).
Proof.
  assert (G : forall st0, editorRoom (roomData (scene st0)) ->
            exists st, runEvents es st0 = Some st /\
                       editorRoom (roomData (scene st))).
  { induction es as [| e es IH]; intros st0 H0; simpl.
    - exists st0. split; [reflexivity | exact H0].
    - destruct e as [x y | x y | | action h dir]; simpl.
      + unfold handlePointerDown.
        destruct (processTileAction_editorRoom x y
                    (mkPointer (scene st0) true (lastUsedTile st0)) H0)
          as (st1 & -> & H1 & _).
        apply IH. exact H1.
      + unfold handlePointerMove. destruct (isHolding st0); simpl.
        * destruct (processTileAction_editorRoom x y st0 H0)
            as (st1 & -> & H1 & _).
          apply IH. exact H1.
        * apply IH. exact H0.
      + apply IH. exact H0.
      + apply IH. exact H0. }
  apply G. exact createEmptyRoom_editorRoom.
Qed.

(** X9: no sequence of pointer events and configuration changes makes
    the editor fail: starting from the scene as constructed, every event
    finds its tile (the clamped grid coordinate is always inside the
    grid), and the room keeps its shape: 64 x 64 tiles carrying their own
    coordinates, none blocked, height 0 wherever not walkable. *)
Theorem editor_events_never_fail (es : list EditorEvent) :
  exists st, runEvents es newFloorplanPointer = Some st /\
             editorRoom (roomData (scene st)).
Proof. exact (editor_events_never_fail_core es). Qed.

Lemma clamp_inside (n hi : Z) : 0 <= n <= hi -> Z.max 0 (Z.min n hi) = n.
Proof. lia. Qed.

(** X10: picking inverts drawing.  A pointer anywhere inside the diamond
    that [renderGrid] draws for a tile of the room (its top corner
    included, the two lower edges excluded) is mapped by
    [processTileAction] to that very tile; the diamond is spanned from the
    top corner by the edge vectors (32, 16) and (-32, 16). *)
Theorem pointerTile_inverts_drawing (room : RoomData) (x y : Z) (u v : Q) :
  0 <= x <= maxX room -> 0 <= y <= maxY room ->
  (0 <= u)%Q -> (u < 1)%Q -> (0 <= v)%Q -> (v < 1)%Q ->
  let p (u v : Q) : Q * Q :=
    (fst (tileOrigin x y) + 32 * u - 32 * v,
     snd (tileOrigin x y) + 16 * u + 16 * v)%Q in
  pointerTile room (fst (p u v)) (snd (p u v)) = (x, y) /\
  Forall2 (fun a b => (fst a == fst b)%Q /\ (snd a == snd b)%Q)
    (tileCorners x y) [p 0%Q 0%Q; p 1%Q 0%Q; p 1%Q 1%Q; p 0%Q 1%Q].
Proof.
  intros Hx Hy Hu0 Hu1 Hv0 Hv1 p. split.
  - unfold pointerTile, p, tileOrigin, tileToScreen, offsetX, offsetY.
    cbn [fst snd].
    rewrite (Qfloor_unique _ x), (Qfloor_unique _ y).
    + rewrite !clamp_inside by lia. reflexivity.
    + assert (E : ((150 + (16 * inject_Z x + 16 * inject_Z y - 32 * 0) +
                    16 * u + 16 * v - 150) / 32 -
                   (450 + (32 * inject_Z x - 32 * inject_Z y) + 32 * u -
                    32 * v - 450) / 64 == inject_Z y + v)%Q) by field.
      rewrite E. lra.
    + assert (E : ((150 + (16 * inject_Z x + 16 * inject_Z y - 32 * 0) +
                    16 * u + 16 * v - 150) / 32 -
                   (450 + (32 * inject_Z x - 32 * inject_Z y) + 32 * u -
                    32 * v - 450) / 64 == inject_Z y + v)%Q) by field.
      rewrite E, inject_Z_plus. change (inject_Z 1) with 1%Q. lra.
    + assert (E : ((450 + (32 * inject_Z x - 32 * inject_Z y) + 32 * u -
                    32 * v - 450) / 64 +
                   (150 + (16 * inject_Z x + 16 * inject_Z y - 32 * 0) +
                    16 * u + 16 * v - 150) / 32 == inject_Z x + u)%Q) by field.
      rewrite E. lra.
    + assert (E : ((450 + (32 * inject_Z x - 32 * inject_Z y) + 32 * u -
                    32 * v - 450) / 64 +
                   (150 + (16 * inject_Z x + 16 * inject_Z y - 32 * 0) +
                    16 * u + 16 * v - 150) / 32 == inject_Z x + u)%Q) by field.
      rewrite E, inject_Z_plus. change (inject_Z 1) with 1%Q. lra.
  - unfold tileCorners, p. destruct (tileOrigin x y) as [sx sy]. cbn [fst snd].
    repeat constructor; cbn [fst snd]; ring.
Qed.

Lemma pointerTile_inverts_drawing_witness :
  pointerTile createEmptyRoom (450 + 32 * 1 - 32 * 0 + 32 * (1 # 2) - 32 * (1 # 4))
    (150 + (16 * 1 + 16 * 0 - 32 * 0) + 16 * (1 # 2) + 16 * (1 # 4)) = (1, 0).
Proof.
  apply (pointerTile_inverts_drawing createEmptyRoom 1 0 (1 # 2) (1 # 4));
    vm_compute; try discriminate; try reflexivity; split; discriminate.
Defined.

Lemma pointerTile_bounds_only (r r' : RoomData) (px py : Q) :
  maxX r' = maxX r -> maxY r' = maxY r ->
  pointerTile r' px py = pointerTile r px py.
Proof. intros Hx Hy. unfold pointerTile. rewrite Hx, Hy. reflexivity. Qed.

Lemma pointerTile_nonneg (r : RoomData) (px py : Q) :
  0 <= fst (pointerTile r px py) /\ 0 <= snd (pointerTile r px py).
Proof. unfold pointerTile. simpl. lia. Qed.

(** X11: an action is applied once per tile entered during a press.  After
    a pointer event was processed, a further event whose position picks
    the same tile changes nothing; after the pointer was released, the
    next press applies the action again, also on that same tile. *)
Theorem action_once_per_tile (st st1 : FloorplanPointer) (px py px' py' : Q) :
  (processTileAction px py st = Some st1 ->
   pointerTile (roomData (scene st)) px' py' =
     pointerTile (roomData (scene st)) px py ->
   processTileAction px' py' st1 = Some st1) /\
  (let '(gridX, gridY) := pointerTile (roomData (scene st)) px py in
   handlePointerDown px py (handlePointerUp st) =
     option_map (fun sc' => mkPointer sc' true (gridX, gridY))
                (onClick gridX gridY (scene st))).
Proof.
  split.
  - unfold processTileAction. intros H Hsame.
    destruct (pointerTile (roomData (scene st)) px py) as [gx gy] eqn:Ep.
    destruct ((fst (lastUsedTile st) =? gx) && (snd (lastUsedTile st) =? gy))
      eqn:Eb.
    + injection H as <-. rewrite Hsame, Eb. reflexivity.
    + destruct (onClick gx gy (scene st)) as [sc' |] eqn:Ec; [| discriminate].
      injection H as <-. cbn [scene lastUsedTile fst snd].
      destruct (onClick_bounds _ _ _ _ Ec) as [Bx By].
      rewrite (pointerTile_bounds_only (roomData (scene st)) _ _ _ Bx By).
      rewrite Hsame. cbn [fst snd]. rewrite !Z.eqb_refl. reflexivity.
  - pose proof (pointerTile_nonneg (roomData (scene st)) px py) as [Nx Ny].
    unfold handlePointerDown, handlePointerUp, processTileAction.
    cbn [scene lastUsedTile isHolding fst snd].
    destruct (pointerTile (roomData (scene st)) px py) as [gx gy].
    cbn [fst snd] in *.
    destruct (Z.eqb_spec (-1) gx); [lia |]. cbn [andb].
    destruct (onClick gx gy (scene st)); reflexivity.
Qed.

Lemma action_once_per_tile_witness :
  let st1 := mkPointer
               (mkScene (set_tiles
                           (withTile (tiles createEmptyRoom) 0 0
                              (mkTile 0 0 0 false true)) createEmptyRoom)
                        (mkConfig SET 0 2)) true (0, 0) in
  processTileAction 451 160 st1 = Some st1.
Proof.
  apply (proj1 (action_once_per_tile
                  (mkPointer newFloorplanScene true (-1, -1)) _ 450 151 451 160));
    vm_compute; reflexivity.
Defined.

Lemma withTile_withTile (ts : list (list Tile)) (gridX gridY : Z)
    (old t1 t2 : Tile) :
  tileAt ts gridX gridY = Some old ->
  withTile (withTile ts gridX gridY t1) gridX gridY t2 = withTile ts gridX gridY t2.
Proof.
  intro H. destruct (tileAt_row ts gridX gridY old H) as (row & Hr & Hc).
  unfold withTile. rewrite Hr.
  assert (E : index (<[Z.to_nat gridY := <[Z.to_nat gridX := t1]> row]> ts)
                gridY = Some (<[Z.to_nat gridX := t1]> row)).
  { apply index_Some in Hr as [Hy Hr]. unfold index.
    destruct (Z.ltb_spec gridY 0); [lia |].
    apply list_lookup_insert_eq. eapply lookup_lt_Some; exact Hr. }
  rewrite E, !list_insert_insert_eq. reflexivity.
Qed.

Lemma set_tiles_same (r : RoomData) : set_tiles (tiles r) r = r.
Proof. destruct r; reflexivity. Qed.

(** X12: [UP] and [DOWN] undo each other inside the range.  In a room
    that [renderGrid] can draw (a tile at every coordinate inside the
    bounds), on a walkable tile of height 0..8 an [UP] click followed by a
    [DOWN] click on the same tile gives back the room as it was, and so
    does [DOWN] followed by [UP] on a walkable tile of height 1..9. *)
Theorem up_and_down_are_inverse (sc : FloorplanScene) (gridX gridY : Z)
    (tile : Tile) :
  tileAt (tiles (roomData sc)) gridX gridY = Some tile ->
  walkable tile = true ->
  renderGrid (roomData sc) = Some tt ->
  let click (a : FloorAction) (s : FloorplanScene) :=
    onClick gridX gridY (updateConfig (Some a) None None s) in
  (0 <= height tile < 9 ->
     exists sc1 sc2, click UP sc = Some sc1 /\ click DOWN sc1 = Some sc2 /\
                     roomData sc2 = roomData sc) /\
  (0 < height tile <= 9 ->
     exists sc1 sc2, click DOWN sc = Some sc1 /\ click UP sc1 = Some sc2 /\
                     roomData sc2 = roomData sc).
Proof.
  intros Ht Hw Hg click. subst click. cbv beta.
  apply renderGrid_Some in Hg.
  assert (Step : forall a s h t, tileAt (tiles (roomData s)) gridX gridY = Some t ->
            walkable t = true -> gridCovered (roomData s) ->
            (a = UP /\ height t < 9 /\ h = height t + 1 \/
             a = DOWN /\ 0 < height t /\ h = height t - 1) ->
            exists s', onClick gridX gridY (updateConfig (Some a) None None s)
                         = Some s' /\
                       roomData s' =
                         set_tiles (withTile (tiles (roomData s)) gridX gridY
                                      (set_height h t)) (roomData s)).
  { intros a s h t Et Ew Eg Ha.
    set (s0 := updateConfig (Some a) None None s).
    assert (Et0 : tileAt (tiles (roomData s0)) gridX gridY = Some t) by exact Et.
    assert (Eg0 : gridCovered (roomData s0)) by exact Eg.
    rewrite (onClick_unfold s0 gridX gridY t Et0).
    apply (afterSwitch_covered s0 gridX gridY t Et0) in Eg0.
    apply renderGrid_Some in Eg0. rewrite Eg0.
    eexists. split; [reflexivity |]. cbn [roomData].
    unfold afterSwitch, s0, updateConfig.
    cbn [roomData config currentAction default].
    destruct Ha as [(-> & Hh & ->) | (-> & Hh & ->)]; rewrite Ew; cbn [andb].
    - destruct (Z.ltb_spec (height t) 9); [reflexivity | lia].
    - destruct (Z.ltb_spec 0 (height t)); [reflexivity | lia]. }
  assert (Cov : forall s h, roomData s =
                  set_tiles (withTile (tiles (roomData sc)) gridX gridY
                               (set_height h tile)) (roomData sc) ->
                gridCovered (roomData s)).
  { intros s h R x y Hx Hy. rewrite R in Hx, Hy |- *.
    cbn [tiles set_tiles maxX maxY] in *.
    apply (withTile_domain (tiles (roomData sc)) gridX gridY tile
             (set_height h tile) x y Ht).
    apply Hg; assumption. }
  assert (Back : forall h1 h2, set_height h2 (set_height h1 tile) = tile ->
            forall sc1 sc2,
              roomData sc1 = set_tiles (withTile (tiles (roomData sc)) gridX gridY
                                          (set_height h1 tile)) (roomData sc) ->
              roomData sc2 = set_tiles (withTile (tiles (roomData sc1)) gridX gridY
                                          (set_height h2 (set_height h1 tile)))
                               (roomData sc1) ->
              roomData sc2 = roomData sc).
  { intros h1 h2 E sc1 sc2 R1 R2. rewrite R2, R1, E. cbn [tiles set_tiles].
    rewrite (withTile_withTile _ _ _ tile _ _ Ht).
    rewrite (withTile_unchanged _ _ _ _ Ht).
    destruct (roomData sc); reflexivity. }
  split; intro Hh.
  - destruct (Step UP sc (height tile + 1) tile Ht Hw Hg) as (sc1 & E1 & R1);
      [left; repeat split; lia |].
    destruct (Step DOWN sc1 (height tile + 1 - 1) (set_height (height tile + 1) tile))
      as (sc2 & E2 & R2).
    { rewrite R1. cbn [tiles set_tiles]. apply (tileAt_withTile_same _ _ _ tile Ht). }
    { exact Hw. }
    { exact (Cov sc1 _ R1). }
    { right. cbn [height set_height]. repeat split; lia. }
    exists sc1, sc2. split; [exact E1 |]. split; [exact E2 |].
    apply (Back (height tile + 1) (height tile + 1 - 1)) with (sc1 := sc1);
      [| exact R1 | exact R2].
    destruct tile; unfold set_height; cbn; f_equal; lia.
  - destruct (Step DOWN sc (height tile - 1) tile Ht Hw Hg) as (sc1 & E1 & R1);
      [right; repeat split; lia |].
    destruct (Step UP sc1 (height tile - 1 + 1) (set_height (height tile - 1) tile))
      as (sc2 & E2 & R2).
    { rewrite R1. cbn [tiles set_tiles]. apply (tileAt_withTile_same _ _ _ tile Ht). }
    { exact Hw. }
    { exact (Cov sc1 _ R1). }
    { left. cbn [height set_height]. repeat split; lia. }
    exists sc1, sc2. split; [exact E1 |]. split; [exact E2 |].
    apply (Back (height tile - 1) (height tile - 1 + 1)) with (sc1 := sc1);
      [| exact R1 | exact R2].
    destruct tile; unfold set_height; cbn; f_equal; lia.
Qed.

Lemma up_and_down_are_inverse_witness :
  let sc := mkScene (mkRoomData 0 0 0 0 0 None [[mkTile 0 0 3 false true]])
                    (mkConfig SET 0 2) in
  exists sc1 sc2,
    onClick 0 0 (updateConfig (Some UP) None None sc) = Some sc1 /\
    onClick 0 0 (updateConfig (Some DOWN) None None sc1) = Some sc2 /\
    roomData sc2 = roomData sc.
Proof.
  apply (proj1 (up_and_down_are_inverse
                  (mkScene (mkRoomData 0 0 0 0 0 None [[mkTile 0 0 3 false true]])
                           (mkConfig SET 0 2))
                  0 0 (mkTile 0 0 3 false true) eq_refl eq_refl eq_refl)).
  simpl. lia.
Defined.

(** X13: the door and the clicks.  A click keeps the door on a walkable
    tile unless it is an [UNSET] on the door tile itself; a [DOOR] click on
    a walkable tile moves the door there and puts the door on a walkable
    tile, whatever was the case before; a [DOOR] click on an unwalkable
    tile changes nothing. *)
Theorem door_kept_or_repaired (sc sc' : FloorplanScene) (gridX gridY : Z)
    (tile : Tile) :
  onClick gridX gridY sc = Some sc' ->
  tileAt (tiles (roomData sc)) gridX gridY = Some tile ->
  (doorOnWalkable (roomData sc) = true ->
   (currentAction (config sc) = UNSET ->
    doorTile (roomData sc) <> Some (gridX, gridY)) ->
   doorOnWalkable (roomData sc') = true) /\
  (currentAction (config sc) = DOOR -> walkable tile = true ->
   doorTile (roomData sc') = Some (gridX, gridY) /\
   doorOnWalkable (roomData sc') = true) /\
  (currentAction (config sc) = DOOR -> walkable tile = false -> sc' = sc).
Proof.
  intros H Ht. split; [| split].
  - intros Hinv Hg. exact (onClick_keeps_door sc sc' gridX gridY Hinv H Hg).
  - intros Ha Hw.
    destruct (onClick_inv _ _ _ _ H) as (t & Et & _ & _ & Hts & Hd & _).
    rewrite Ht in Et. injection Et as <-. rewrite Ha, Hw in Hd.
    split; [exact Hd |]. unfold doorOnWalkable. rewrite Hd, Hts.
    rewrite (tileAt_withTile_same _ _ _ tile Ht).
    unfold clickedTile. rewrite Ha. exact Hw.
  - intros Ha Hw.
    destruct (onClick_inv _ _ _ _ H) as (t & Et & _ & Hc & _ & _ & _ & _ & Hr).
    rewrite Ht in Et. injection Et as <-.
    unfold afterSwitch in Hr. rewrite Ha, Hw in Hr. cbv zeta in Hr.
    destruct sc, sc'. cbn in Hc, Hr. subst. reflexivity.
Qed.

Lemma door_kept_or_repaired_witness :
  let room := mkRoomData 0 0 0 0 0 (Some (5, 5)) [[mkTile 0 0 0 false true]] in
  doorOnWalkable room = false /\
  doorOnWalkable (set_doorTile (Some (0, 0)) room) = true.
Proof.
  split; [reflexivity |].
  exact (proj2 (proj1 (proj2
           (door_kept_or_repaired
              (mkScene (mkRoomData 0 0 0 0 0 (Some (5, 5))
                          [[mkTile 0 0 0 false true]]) (mkConfig DOOR 0 2))
              (mkScene (set_doorTile (Some (0, 0))
                          (mkRoomData 0 0 0 0 0 (Some (5, 5))
                             [[mkTile 0 0 0 false true]])) (mkConfig DOOR 0 2))
              0 0 (mkTile 0 0 0 false true) eq_refl eq_refl))
           eq_refl eq_refl)).
Defined.

(** X14: [getHeightColor] is defined for every height from 0 on, and all
    heights from 7 on share the colour of 7 (so 7, 8 and 9 look alike);
    for a negative height it is undefined. *)
Theorem getHeightColor_defined (h : Z) :
  (0 <= h -> exists c, getHeightColor h = Some c) /\
  (7 <= h -> getHeightColor h = getHeightColor 7) /\
  (h < 0 -> getHeightColor h = None).
Proof.
  unfold getHeightColor. change (Z.of_nat (length heightColors) - 1) with 7.
  split; [| split].
  - intro H. unfold index. destruct (Z.ltb_spec (Z.min h 7) 0); [lia |].
    destruct (lookup_lt_is_Some_2 heightColors (Z.to_nat (Z.min h 7)))
      as [c Hc]; [simpl; lia |].
    exists c. exact Hc.
  - intro H. rewrite Z.min_r by lia. reflexivity.
  - intro H. unfold index. rewrite Z.min_l by lia.
    destruct (Z.ltb_spec h 0); [reflexivity | lia].
Qed.

Lemma getHeightColor_defined_witness :
  getHeightColor 9 = getHeightColor 7 /\ getHeightColor (-1) = None.
Proof.
  split.
  - apply (getHeightColor_defined 9). lia.
  - apply (getHeightColor_defined (-1)). lia.
Defined.

(** ** Exporting the pattern *)

(** What the scan of one row does to the running maxima. *)
Lemma scanRow_spec (row : list Tile) :
  forall (x0 y : Z) (acc : Z * Z),
    let acc' := scanRow row x0 y acc in
    (fst acc <= fst acc' /\ snd acc <= snd acc') /\
    (forall (i : nat) t, row !! i = Some t -> walkable t = true ->
       x0 + Z.of_nat i <= fst acc' /\ y <= snd acc') /\
    (fst acc' = fst acc \/
     exists (i : nat) t, row !! i = Some t /\ walkable t = true /\
                         fst acc' = x0 + Z.of_nat i) /\
    (snd acc' = snd acc \/
     snd acc' = y /\ exists (i : nat) t, row !! i = Some t /\ walkable t = true).
Proof.
  induction row as [| t row IH]; intros x0 y acc; cbn [scanRow].
  - cbv zeta. split; [lia |]. split; [intros i t H; discriminate |].
    split; left; reflexivity.
  - cbv zeta in *.
    destruct (IH (x0 + 1) y
                (if walkable t then (Z.max (fst acc) x0, Z.max (snd acc) y)
                 else acc)) as ((M1 & M2) & Hin & Hx & Hy).
    set (acc' := scanRow row (x0 + 1) y _) in *.
    assert (B : fst acc <= fst (if walkable t
                                then (Z.max (fst acc) x0, Z.max (snd acc) y)
                                else acc) /\
                snd acc <= snd (if walkable t
                                then (Z.max (fst acc) x0, Z.max (snd acc) y)
                                else acc)).
    { destruct (walkable t); cbn [fst snd]; lia. }
    split; [lia |]. split; [| split].
    + intros [| i] u Hu Hw; cbn in Hu.
      * injection Hu as <-. rewrite Hw in M1, M2. cbn [fst snd] in M1, M2. lia.
      * destruct (Hin i u Hu Hw). lia.
    + destruct Hx as [Hx | (i & u & Hu & Hw & Hx)].
      * destruct (walkable t) eqn:Hw; cbn [fst] in Hx; [| left; exact Hx].
        destruct (Z.max_spec (fst acc) x0) as [[_ E] | [_ E]];
          rewrite E in Hx; [| left; exact Hx].
        right. exists 0%nat, t. split; [reflexivity |]. split; [exact Hw | lia].
      * right. exists (S i), u. split; [exact Hu |]. split; [exact Hw | lia].
    + destruct Hy as [Hy | (Hy & i & u & Hu & Hw)].
      * destruct (walkable t) eqn:Hw; cbn [snd] in Hy; [| left; exact Hy].
        destruct (Z.max_spec (snd acc) y) as [[_ E] | [_ E]];
          rewrite E in Hy; [| left; exact Hy].
        right. split; [exact Hy |]. exists 0%nat, t. split; [reflexivity | exact Hw].
      * right. split; [exact Hy |]. exists (S i), u. split; [exact Hu | exact Hw].
Qed.

(** The same for the scan of all rows from row number [y0] on. *)
Lemma scanRows_spec (rows : list (list Tile)) :
  forall (y0 : Z) (acc : Z * Z),
    let acc' := scanRows rows y0 acc in
    (fst acc <= fst acc' /\ snd acc <= snd acc') /\
    (forall (j i : nat) row t,
       rows !! j = Some row -> row !! i = Some t -> walkable t = true ->
       Z.of_nat i <= fst acc' /\ y0 + Z.of_nat j <= snd acc') /\
    (fst acc' = fst acc \/
     exists (j i : nat) row t,
       rows !! j = Some row /\ row !! i = Some t /\ walkable t = true /\
       fst acc' = Z.of_nat i) /\
    (snd acc' = snd acc \/
     exists (j i : nat) row t,
       rows !! j = Some row /\ row !! i = Some t /\ walkable t = true /\
       snd acc' = y0 + Z.of_nat j).
Proof.
  induction rows as [| row rows IH]; intros y0 acc; cbn [scanRows].
  - cbv zeta. split; [lia |]. split; [intros j i row t H; discriminate |].
    split; left; reflexivity.
  - cbv zeta in *.
    destruct (scanRow_spec row 0 y0 acc) as ((R1 & R2) & Rin & Rx & Ry).
    destruct (IH (y0 + 1) (scanRow row 0 y0 acc))
      as ((M1 & M2) & Hin & Hx & Hy).
    set (mid := scanRow row 0 y0 acc) in *.
    set (acc' := scanRows rows (y0 + 1) mid) in *.
    split; [lia |]. split; [| split].
    + intros [| j] i r t Hr Ht Hw; cbn in Hr.
      * injection Hr as <-. destruct (Rin i t Ht Hw). lia.
      * destruct (Hin j i r t Hr Ht Hw). lia.
    + destruct Hx as [Hx | (j & i & r & t & Hr & Ht & Hw & Hx)].
      * destruct Rx as [Rx | (i & t & Ht & Hw & Rx)]; [left; lia |].
        right. exists 0%nat, i, row, t. repeat split; try assumption. lia.
      * right. exists (S j), i, r, t. repeat split; assumption.
    + destruct Hy as [Hy | (j & i & r & t & Hr & Ht & Hw & Hy)].
      * destruct Ry as [Ry | (Ry & i & t & Ht & Hw)]; [left; lia |].
        right. exists 0%nat, i, row, t. repeat split; try assumption. lia.
      * right. exists (S j), i, r, t. repeat split; try assumption. lia.
Qed.

Lemma tileAt_lookup (ts : list (list Tile)) (x y : Z) (t : Tile) :
  tileAt ts x y = Some t <->
  0 <= x /\ 0 <= y /\
  exists row, ts !! Z.to_nat y = Some row /\ row !! Z.to_nat x = Some t.
Proof.
  split.
  - intro H. destruct (tileAt_row ts x y t H) as (row & Hr & Hc).
    apply index_Some in Hr as [Hy Hr]. apply index_Some in Hc as [Hx Hc].
    split; [exact Hx |]. split; [exact Hy |]. exists row. split; assumption.
  - intros (Hx & Hy & row & Hr & Hc). unfold tileAt, index.
    destruct (Z.ltb_spec y 0); [lia |]. rewrite Hr.
    destruct (Z.ltb_spec x 0); [lia |]. exact Hc.
Qed.

(** The extent that [exportPattern] computes: it is never negative, it
    contains every walkable tile, and each of its two bounds is 0 or the
    coordinate of some walkable tile. *)
Lemma walkableExtent_spec (ts : list (list Tile)) :
  let mx := fst (walkableExtent ts) in
  let my := snd (walkableExtent ts) in
  (0 <= mx /\ 0 <= my) /\
  (forall x y t, tileAt ts x y = Some t -> walkable t = true ->
     0 <= x <= mx /\ 0 <= y <= my) /\
  (mx = 0 \/ exists y t, tileAt ts mx y = Some t /\ walkable t = true) /\
  (my = 0 \/ exists x t, tileAt ts x my = Some t /\ walkable t = true).
Proof.
  cbv zeta. unfold walkableExtent.
  destruct (scanRows_spec ts 0 (0, 0)) as ((M1 & M2) & Hin & Hx & Hy).
  cbn [fst snd] in *. split; [lia |]. split; [| split].
  - intros x y t Ht Hw. apply tileAt_lookup in Ht as (Hx0 & Hy0 & row & Hr & Hc).
    destruct (Hin _ _ _ _ Hr Hc Hw). lia.
  - destruct Hx as [Hx | (j & i & row & t & Hr & Ht & Hw & Hx)];
      [left; exact Hx | right].
    exists (Z.of_nat j), t. split; [| exact Hw].
    apply tileAt_lookup. split; [lia |]. split; [lia |].
    exists row. rewrite Hx, !Nat2Z.id. split; assumption.
  - destruct Hy as [Hy | (j & i & row & t & Hr & Ht & Hw & Hy)];
      [left; exact Hy | right].
    exists (Z.of_nat i), t. split; [| exact Hw].
    apply tileAt_lookup. split; [lia |]. split; [lia |].
    exists row. rewrite Hy, Z.add_0_l, !Nat2Z.id. split; assumption.
Qed.

Lemma foldl_snoc {A B : Type} (f : A -> B -> A) (a : A) (l : list B) (b : B) :
  foldl f a (l ++ [b]) = f (foldl f a l) b.
Proof. revert a. induction l as [| x l IH]; intro a; simpl; [reflexivity | apply IH]. Qed.

Lemma list_ascii_append (s1 s2 : String.string) :
  String.list_ascii_of_string (String.append s1 s2) =
  String.list_ascii_of_string s1 ++ String.list_ascii_of_string s2.
Proof.
  induction s1 as [| c s1 IH]; simpl; [reflexivity |]. rewrite IH. reflexivity.
Qed.

Lemma toString36_digit (h : Z) :
  0 <= h < 36 -> toString36 h = String.String (digit36 h) String.EmptyString.
Proof.
  intro H. unfold toString36. destruct (Z.ltb_spec h 0); [lia |].
  cbn [digits36]. destruct (Z.ltb_spec h 36); [| lia].
  rewrite Z.mod_small by lia. reflexivity.
Qed.

Lemma tileText_single (t : Tile) :
  0 <= height t < 36 ->
  String.list_ascii_of_string (tileText t) =
    [if walkable t then digit36 (height t) else letter_x].
Proof.
  intro H. unfold tileText. destruct (walkable t); [| reflexivity].
  rewrite toString36_digit by exact H. reflexivity.
Qed.

(** A row of the pattern over tiles that are all there, with heights of
    one base-36 digit: one character per tile. *)
Lemma exportRow_spec (ts : list (list Tile)) (y : Z) (n : nat) :
  (forall x, 0 <= x < Z.of_nat n ->
     exists t, tileAt ts x y = Some t /\ 0 <= height t < 36) ->
  exists row,
    exportRow ts y (Z.of_nat n - 1) = Some row /\
    length (String.list_ascii_of_string row) = n /\
    forall (i : nat) t, tileAt ts (Z.of_nat i) y = Some t -> (i < n)%nat ->
      String.list_ascii_of_string row !! i =
        Some (if walkable t then digit36 (height t) else letter_x).
Proof.
  unfold exportRow. replace (Z.of_nat n - 1 + 1) with (Z.of_nat n) by lia.
  induction n as [| n IH]; intro Hall.
  - exists String.EmptyString. split; [reflexivity |]. split; [reflexivity |].
    intros i t _ Hi. lia.
  - destruct IH as (row & E & Hlen & Hget); [intros x Hx; apply Hall; lia |].
    destruct (Hall (Z.of_nat n)) as (t & Et & Hh); [lia |].
    rewrite seqZ_S, foldl_snoc, E, Z.add_0_l, Et.
    eexists. split; [reflexivity |].
    rewrite list_ascii_append, (tileText_single t Hh).
    split; [rewrite length_app, Hlen; simpl; lia |].
    intros i u Eu Hi. destruct (Nat.eq_dec i n) as [-> | Hne].
    + rewrite Et in Eu. injection Eu as <-.
      rewrite lookup_app_r by lia. rewrite Hlen, Nat.sub_diag. reflexivity.
    + rewrite lookup_app_l by lia. apply (Hget i u Eu). lia.
Qed.

Lemma exportPattern_spec_core (room : RoomData) :
  let mx := fst (walkableExtent (tiles room)) in
  let my := snd (walkableExtent (tiles room)) in
  (forall x y, 0 <= x <= mx -> 0 <= y <= my ->
     exists t, tileAt (tiles room) x y = Some t /\ 0 <= height t < 36) ->
  exists pattern,
    exportPattern room = Some pattern /\
    Z.of_nat (length pattern) = my + 1 /\
    (forall x y t, tileAt (tiles room) x y = Some t ->
       0 <= x <= mx -> 0 <= y <= my ->
       exists row,
         pattern !! Z.to_nat y = Some row /\
         Z.of_nat (length (String.list_ascii_of_string row)) = mx + 1 /\
         String.list_ascii_of_string row !! Z.to_nat x =
           Some (if walkable t then digit36 (height t) else letter_x)) /\
    (forall x y t, tileAt (tiles room) x y = Some t -> walkable t = true ->
       0 <= x <= mx /\ 0 <= y <= my).
Proof.
  intros mx my Hall.
  destruct (walkableExtent_spec (tiles room)) as ((Px & Py) & Hin & _).
  fold mx in Px, Hin. fold my in Py, Hin.
  unfold exportPattern.
  destruct (walkableExtent (tiles room)) as [mx' my'] eqn:Ew.
  cbn [fst snd] in mx, my. subst mx my.
  assert (Hrow : forall y, 0 <= y <= my' ->
            exists row,
              exportRow (tiles room) y mx' = Some row /\
              length (String.list_ascii_of_string row) = Z.to_nat (mx' + 1) /\
              forall (i : nat) t,
                tileAt (tiles room) (Z.of_nat i) y = Some t ->
                (i < Z.to_nat (mx' + 1))%nat ->
                String.list_ascii_of_string row !! i =
                  Some (if walkable t then digit36 (height t) else letter_x)).
  { intros y Hy.
    destruct (exportRow_spec (tiles room) y (Z.to_nat (mx' + 1))) as (row & E & R).
    { intros x Hx. apply Hall; lia. }
    exists row. split; [| exact R].
    rewrite <- E. f_equal. lia. }
  destruct (mapM (fun y => exportRow (tiles room) y mx') (seqZ 0 (my' + 1)))
    as [pattern |] eqn:Em.
  - exists pattern. split; [reflexivity |].
    apply mapM_Some_1 in Em.
    pose proof (Forall2_length _ _ _ Em) as Hlen. rewrite length_seqZ in Hlen.
    split; [lia |]. split; [| exact Hin].
    intros x y t Et Hx Hy.
    destruct (Hrow y Hy) as (row & Er & Rlen & Rget).
    exists row. split; [| split].
    + destruct (Forall2_lookup_l _ _ _ (Z.to_nat y) y Em) as (row' & Hp & Hr).
      { rewrite lookup_seqZ_lt by lia. f_equal. lia. }
      cbv beta in Hr. rewrite Er in Hr. injection Hr as <-. exact Hp.
    + lia.
    + apply (Rget (Z.to_nat x) t); [| lia].
      rewrite Z2Nat.id by lia. exact Et.
  - exfalso. apply mapM_None_1 in Em. apply Exists_exists in Em.
    destruct Em as (y & Hy & Hn).
    apply list_elem_of_lookup in Hy as (i & Hi).
    apply lookup_seqZ in Hi as [-> Hi].
    destruct (Hrow (0 + Z.of_nat i)) as (row & Er & _); [lia |].
    rewrite Er in Hn. discriminate.
Qed.

(** X15: [exportPattern] on a room whose tiles inside the walkable extent
    are all there, with heights of one base-36 digit (0..35).  The export
    succeeds; it has one row per [y] up to the largest walkable [y] and
    one character per [x] up to the largest walkable [x]; the character
    for a tile is its height digit when walkable and the letter x when
    not; every walkable tile of the room is inside the pattern. *)
Theorem exportPattern_spec (room : RoomData) :
  let mx := fst (walkableExtent (tiles room)) in
  let my := snd (walkableExtent (tiles room)) in
  (forall x y, 0 <= x <= mx -> 0 <= y <= my ->
     exists t, tileAt (tiles room) x y = Some t /\ 0 <= height t < 36) ->
  exists pattern,
    exportPattern room = Some pattern /\
    Z.of_nat (length pattern) = my + 1 /\
    (forall x y t, tileAt (tiles room) x y = Some t ->
       0 <= x <= mx -> 0 <= y <= my ->
       exists row,
         pattern !! Z.to_nat y = Some row /\
         Z.of_nat (length (String.list_ascii_of_string row)) = mx + 1 /\
         String.list_ascii_of_string row !! Z.to_nat x =
           Some (if walkable t then digit36 (height t) else letter_x)) /\
    (forall x y t, tileAt (tiles room) x y = Some t -> walkable t = true ->
       0 <= x <= mx /\ 0 <= y <= my).
Proof. exact (exportPattern_spec_core room). Qed.

Lemma exportPattern_spec_witness :
  exists pattern,
    exportPattern (mkRoomData 0 0 0 0 0 None [[mkTile 0 0 7 false true]])
      = Some pattern /\
    Z.of_nat (length pattern) = 0 + 1.
Proof.
  destruct (exportPattern_spec
              (mkRoomData 0 0 0 0 0 None [[mkTile 0 0 7 false true]]))
    as (pattern & E & L & _).
  - intros x y Hx Hy. simpl in Hx, Hy.
    assert (x = 0) as -> by lia. assert (y = 0) as -> by lia.
    eexists. split; [reflexivity | simpl; lia].
  - exists pattern. split; [exact E | exact L].
Defined.

Lemma digit36_decimal (h k : Z) :
  0 <= h <= 9 -> 0 <= k <= 9 ->
  digit36 h <> letter_x /\ (digit36 h = digit36 k -> h = k).
Proof.
  intros Hh Hk.
  assert (Eh : h = 0 \/ h = 1 \/ h = 2 \/ h = 3 \/ h = 4 \/ h = 5 \/ h = 6 \/
               h = 7 \/ h = 8 \/ h = 9) by lia.
  assert (Ek : k = 0 \/ k = 1 \/ k = 2 \/ k = 3 \/ k = 4 \/ k = 5 \/ k = 6 \/
               k = 7 \/ k = 8 \/ k = 9) by lia.
  split.
  - repeat (destruct Eh as [-> | Eh]); try subst h; vm_compute; discriminate.
  - repeat (destruct Eh as [-> | Eh]); try subst h;
      repeat (destruct Ek as [-> | Ek]); try subst k;
      vm_compute; intro E; first [reflexivity | discriminate E].
Qed.

Lemma exportPattern_of_editor_room_core (room : RoomData) :
  editorRoom room -> heightsInRange room ->
  exists pattern,
    exportPattern room = Some pattern /\
    (1 <= length pattern <= 64)%nat /\
    (forall (j i : nat) row c,
       pattern !! j = Some row ->
       String.list_ascii_of_string row !! i = Some c ->
       exists t, tileAt (tiles room) (Z.of_nat i) (Z.of_nat j) = Some t /\
                 (walkable t = false -> c = letter_x) /\
                 (walkable t = true ->
                  c = digit36 (height t) /\ c <> letter_x /\
                  forall h, 0 <= h <= 9 -> c = digit36 h -> h = height t)) /\
    ((forall x y t, tileAt (tiles room) x y = Some t -> walkable t = false) ->
     pattern = [String.String letter_x String.EmptyString]).
Proof.
  intros (_ & _ & Hall & Hout) Hh.
  destruct (walkableExtent_spec (tiles room)) as ((Px & Py) & Hin & Tx & Ty).
  set (mx := fst (walkableExtent (tiles room))) in *.
  set (my := snd (walkableExtent (tiles room))) in *.
  assert (Bx : mx < MAX_TILES).
  { destruct Tx as [-> | (y & t & Et & _)]; [reflexivity |].
    destruct (Z.lt_ge_cases mx MAX_TILES) as [L | G]; [exact L |].
    rewrite (Hout mx y) in Et by lia. discriminate. }
  assert (By : my < MAX_TILES).
  { destruct Ty as [-> | (x & t & Et & _)]; [reflexivity |].
    destruct (Z.lt_ge_cases my MAX_TILES) as [L | G]; [exact L |].
    rewrite (Hout x my) in Et by lia. discriminate. }
  unfold MAX_TILES in *.
  assert (Hcov : forall x y, 0 <= x <= mx -> 0 <= y <= my ->
            exists t, tileAt (tiles room) x y = Some t /\ 0 <= height t < 36).
  { intros x y Hx Hy. destruct (Hall x y) as (t & Et & _); try lia.
    exists t. split; [exact Et |].
    pose proof (tileAt_Forall _ _ _ _ _ Hh Et) as R. unfold heightInRange in R.
    lia. }
  destruct (exportPattern_spec_core room Hcov) as (pattern & E & Hlen & Hget & _).
  fold mx in Hget. fold my in Hlen, Hget.
  exists pattern. split; [exact E |]. split; [lia |]. split.
  - intros j i row c Hj Hi.
    assert (Lj : Z.of_nat j <= my).
    { apply lookup_lt_Some in Hj. lia. }
    destruct (Hall 0 (Z.of_nat j)) as (t0 & Et0 & _); try lia.
    destruct (Hget 0 (Z.of_nat j) t0 Et0) as (row0 & Hr0 & Rlen & _); try lia.
    rewrite Nat2Z.id, Hj in Hr0. injection Hr0 as <-.
    assert (Li : Z.of_nat i <= mx).
    { apply lookup_lt_Some in Hi. lia. }
    destruct (Hall (Z.of_nat i) (Z.of_nat j)) as (t & Et & _); try lia.
    destruct (Hget _ _ t Et) as (row1 & Hr1 & _ & Hc); try lia.
    rewrite Nat2Z.id, Hj in Hr1. injection Hr1 as <-.
    rewrite Nat2Z.id, Hi in Hc. injection Hc as ->.
    exists t. split; [exact Et |].
    pose proof (tileAt_Forall _ _ _ _ _ Hh Et) as R. unfold heightInRange in R.
    split; intros ->; [reflexivity |].
    split; [reflexivity |]. split.
    + apply (digit36_decimal (height t) 0); lia.
    + intros h Hr Ec. symmetry. apply (digit36_decimal (height t) h); auto.
  - intro Hnone.
    assert (mx = 0) as Zx.
    { destruct Tx as [-> | (y & t & Et & Hw)]; [reflexivity |].
      rewrite (Hnone _ _ _ Et) in Hw. discriminate. }
    assert (my = 0) as Zy.
    { destruct Ty as [-> | (x & t & Et & Hw)]; [reflexivity |].
      rewrite (Hnone _ _ _ Et) in Hw. discriminate. }
    destruct (Hall 0 0) as (t & Et & _); try lia.
    destruct (Hget 0 0 t Et) as (row & Hr & Rlen & Hc); try lia.
    rewrite (Hnone _ _ _ Et) in Hc. rewrite Zx in Rlen. rewrite Zy in Hlen.
    simpl in Hr, Hc.
    destruct pattern as [| r [| r' pattern]]; simpl in Hlen; try lia.
    simpl in Hr. injection Hr as ->. f_equal.
    rewrite <- (String.string_of_list_ascii_of_string row).
    destruct (String.list_ascii_of_string row) as [| c [| c' l]];
      simpl in Rlen; try lia.
    simpl in Hc. injection Hc as ->. reflexivity.
Qed.

(** X16: the export of a room as the editor keeps it, with heights in
    0..9, never fails; it has between 1 and 64 rows; every character
    stands for the tile at its place, the letter x for a tile that is not
    walkable and otherwise the decimal digit of the height, which is never
    the letter x and differs for different heights; a room without any
    walkable tile exports as the single row "x", not as an empty
    pattern. *)
Theorem exportPattern_of_editor_room (room : RoomData) :
  editorRoom room -> heightsInRange room ->
  exists pattern,
    exportPattern room = Some pattern /\
    (1 <= length pattern <= 64)%nat /\
    (forall (j i : nat) row c,
       pattern !! j = Some row ->
       String.list_ascii_of_string row !! i = Some c ->
       exists t, tileAt (tiles room) (Z.of_nat i) (Z.of_nat j) = Some t /\
                 (walkable t = false -> c = letter_x) /\
                 (walkable t = true ->
                  c = digit36 (height t) /\ c <> letter_x /\
                  forall h, 0 <= h <= 9 -> c = digit36 h -> h = height t)) /\
    ((forall x y t, tileAt (tiles room) x y = Some t -> walkable t = false) ->
     pattern = [String.String letter_x String.EmptyString]).
Proof. exact (exportPattern_of_editor_room_core room). Qed.

Lemma exportPattern_of_editor_room_witness :
  exists pattern,
    exportPattern createEmptyRoom = Some pattern /\
    (1 <= length pattern <= 64)%nat.
Proof.
  destruct (exportPattern_of_editor_room createEmptyRoom
              createEmptyRoom_editorRoom) as (pattern & E & L & _).
  - unfold heightsInRange, heightInRange.
    apply Forall_forall. intros row Hr. apply Forall_forall. intros t Ht.
    apply list_elem_of_lookup in Hr as (j & Hj).
    apply list_elem_of_lookup in Ht as (i & Hi).
    assert (Et : tileAt (tiles createEmptyRoom) (Z.of_nat i) (Z.of_nat j) = Some t).
    { apply tileAt_lookup. split; [lia |]. split; [lia |].
      exists row. rewrite !Nat2Z.id. split; assumption. }
    rewrite createEmptyRoom_tileAt_core in Et.
    destruct (_ && _); [| discriminate]. injection Et as <-. simpl. lia.
  - exists pattern. split; [exact E | exact L].
Defined.

(** ** Loading a room into the editor *)

Lemma arraySet_spec {A : Type} (a : list A) (k : nat) (v : A) :
  (k <= length a)%nat ->
  exists a', arraySet a (Z.of_nat k) v = Some a' /\
             length a' = Nat.max (length a) (S k) /\
             a' !! k = Some v /\
             forall i, i <> k -> a' !! i = a !! i.
Proof.
  intro H. unfold arraySet.
  destruct (Z.leb_spec 0 (Z.of_nat k)); [| lia]. cbn [andb].
  destruct (Z.ltb_spec (Z.of_nat k) (Z.of_nat (length a))) as [L | G].
  - eexists. split; [reflexivity |]. rewrite Nat2Z.id, length_insert.
    split; [lia |]. split; [apply list_lookup_insert_eq; lia |].
    intros i Hi. apply list_lookup_insert_ne. lia.
  - assert (k = length a) as -> by lia. rewrite Z.eqb_refl.
    eexists. split; [reflexivity |]. rewrite length_app. cbn [length].
    split; [lia |]. split.
    + rewrite lookup_app_r by lia. rewrite Nat.sub_diag. reflexivity.
    + intros i Hi. destruct (Nat.lt_ge_cases i (length a)).
      * apply lookup_app_l. lia.
      * rewrite lookup_app_r by lia. rewrite (lookup_ge_None_2 a i) by lia.
        destruct (i - length a)%nat eqn:E; [lia | reflexivity].
Qed.

(** The row after the inner loop has run over the first [n] columns. *)
Lemma loadRow_prefix (sourceRoom : RoomData) (y : Z) (row : list Tile) (n : nat) :
  (forall x, 0 <= x < Z.of_nat n -> is_Some (loadTile sourceRoom x y)) ->
  exists row',
    foldl (fun acc x =>
             match acc, loadTile sourceRoom x y with
             | Some r, Some t => arraySet r x t
             | _, _ => None
             end) (Some row) (seqZ 0 (Z.of_nat n)) = Some row' /\
    length row' = Nat.max (length row) n /\
    (forall i, (i < n)%nat -> row' !! i = loadTile sourceRoom (Z.of_nat i) y) /\
    (forall i, (n <= i)%nat -> row' !! i = row !! i).
Proof.
  induction n as [| n IH]; intro Hall.
  - exists row. split; [reflexivity |]. split; [lia |].
    split; [intros i Hi; lia | reflexivity].
  - destruct IH as (r & E & Hlen & Hlo & Hhi); [intros x Hx; apply Hall; lia |].
    destruct (Hall (Z.of_nat n)) as [t Et]; [lia |].
    rewrite seqZ_S, foldl_snoc, E, Z.add_0_l, Et.
    destruct (arraySet_spec r n t) as (r' & E' & Hlen' & Hk & Hother); [lia |].
    exists r'. split; [exact E' |]. split; [lia |]. split.
    + intros i Hi. destruct (Nat.eq_dec i n) as [-> | Hne].
      * rewrite Hk, Et. reflexivity.
      * rewrite (Hother i Hne). apply Hlo. lia.
    + intros i Hi. rewrite (Hother i) by lia. apply Hhi. lia.
Qed.

(** The grid after the outer loop has run over the first [n] rows. *)
Lemma loadRows_prefix (sourceRoom : RoomData) (ts : list (list Tile)) (n : nat) :
  (n <= length ts)%nat ->
  (forall x y, 0 <= x < MAX_TILES -> 0 <= y < Z.of_nat n ->
     is_Some (loadTile sourceRoom x y)) ->
  exists ts',
    foldl (fun acc y =>
             match acc with
             | Some ts' =>
                 match index ts' y with
                 | Some row =>
                     match loadRow sourceRoom y row with
                     | Some row' => Some (<[Z.to_nat y := row']> ts')
                     | None => None
                     end
                 | None => None
                 end
             | None => None
             end) (Some ts) (seqZ 0 (Z.of_nat n)) = Some ts' /\
    length ts' = length ts /\
    (forall j, (j < n)%nat ->
       exists row row', ts !! j = Some row /\ ts' !! j = Some row' /\
         (forall i, (i < Z.to_nat MAX_TILES)%nat ->
            row' !! i = loadTile sourceRoom (Z.of_nat i) (Z.of_nat j)) /\
         (forall i, (Z.to_nat MAX_TILES <= i)%nat -> row' !! i = row !! i)) /\
    (forall j, (n <= j)%nat -> ts' !! j = ts !! j).
Proof.
  induction n as [| n IH]; intros Hn Hall.
  - exists ts. split; [reflexivity |]. split; [reflexivity |].
    split; [intros j Hj; lia | reflexivity].
  - destruct IH as (t1 & E & Hlen & Hlo & Hhi);
      [lia | intros x y Hx Hy; apply Hall; lia |].
    rewrite seqZ_S, foldl_snoc, E, Z.add_0_l.
    destruct (lookup_lt_is_Some_2 ts n) as [row Hrow]; [lia |].
    assert (Ei : index t1 (Z.of_nat n) = Some row).
    { unfold index. destruct (Z.ltb_spec (Z.of_nat n) 0); [lia |].
      rewrite Nat2Z.id, Hhi by lia. exact Hrow. }
    rewrite Ei.
    destruct (loadRow_prefix sourceRoom (Z.of_nat n) row (Z.to_nat MAX_TILES))
      as (row' & Er & _ & Rlo & Rhi).
    { intros x Hx. apply Hall; unfold MAX_TILES in *; lia. }
    unfold loadRow. replace (Z.of_nat (Z.to_nat MAX_TILES)) with MAX_TILES in Er
      by reflexivity.
    rewrite Er, Nat2Z.id.
    eexists. split; [reflexivity |]. rewrite length_insert.
    split; [exact Hlen |]. split.
    + intros j Hj. destruct (Nat.eq_dec j n) as [-> | Hne].
      * exists row, row'. split; [exact Hrow |].
        split; [apply list_lookup_insert_eq; lia |]. split; assumption.
      * destruct (Hlo j) as (r & r' & A & B & C); [lia |].
        exists r, r'. split; [exact A |].
        split; [rewrite list_lookup_insert_ne by lia; exact B | exact C].
    + intros j Hj. rewrite list_lookup_insert_ne by lia. apply Hhi. lia.
Qed.

Lemma tileAt_nonneg (ts : list (list Tile)) (x y : Z) :
  0 <= x -> 0 <= y ->
  tileAt ts x y = match ts !! Z.to_nat y with
                  | Some row => row !! Z.to_nat x
                  | None => None
                  end.
Proof.
  intros Hx Hy. unfold tileAt, index.
  destruct (Z.ltb_spec y 0); [lia |]. destruct (ts !! Z.to_nat y); [| reflexivity].
  destruct (Z.ltb_spec x 0); [lia | reflexivity].
Qed.

Lemma tileAt_negative (ts : list (list Tile)) (x y : Z) :
  x < 0 \/ y < 0 -> tileAt ts x y = None.
Proof.
  intro H. unfold tileAt, index.
  destruct (Z.ltb_spec y 0); [reflexivity |]. destruct (ts !! Z.to_nat y); [| reflexivity].
  destruct (Z.ltb_spec x 0); [reflexivity | lia].
Qed.

Lemma loadTile_is_Some (sourceRoom : RoomData) (x y : Z) :
  (x <= maxX sourceRoom -> y <= maxY sourceRoom ->
   is_Some (tileAt (tiles sourceRoom) x y)) ->
  is_Some (loadTile sourceRoom x y).
Proof.
  intro H. unfold loadTile.
  destruct (Z.leb_spec y (maxY sourceRoom)); cbn [andb]; [| eexists; reflexivity].
  destruct (Z.leb_spec x (maxX sourceRoom)); [| eexists; reflexivity].
  destruct H as [t ->]; [assumption .. |]. eexists. reflexivity.
Qed.

(** The grid that the two loops leave. *)
Lemma loadRows_spec (sourceRoom : RoomData) (ts : list (list Tile)) :
  (Z.to_nat MAX_TILES <= length ts)%nat ->
  (forall x y, 0 <= x < MAX_TILES -> 0 <= y < MAX_TILES ->
     x <= maxX sourceRoom -> y <= maxY sourceRoom ->
     is_Some (tileAt (tiles sourceRoom) x y)) ->
  exists ts',
    loadRows sourceRoom ts = Some ts' /\
    (forall x y, 0 <= x < MAX_TILES -> 0 <= y < MAX_TILES ->
       tileAt ts' x y =
         if (y <=? maxY sourceRoom) && (x <=? maxX sourceRoom)
         then option_map
                (fun t => mkTile x y (height t) (isBlocked t) (walkable t))
                (tileAt (tiles sourceRoom) x y)
         else Some (mkTile x y 0 false false)) /\
    (forall x y, ~ (0 <= x < MAX_TILES /\ 0 <= y < MAX_TILES) ->
       tileAt ts' x y = tileAt ts x y).
Proof.
  intros Hrows Hsrc.
  destruct (loadRows_prefix sourceRoom ts (Z.to_nat MAX_TILES))
    as (ts' & E & Hlen & Hlo & Hhi); [exact Hrows | |].
  { intros x y Hx Hy. apply loadTile_is_Some. intros Bx By.
    apply Hsrc; unfold MAX_TILES in *; lia. }
  replace (Z.of_nat (Z.to_nat MAX_TILES)) with MAX_TILES in E by reflexivity.
  exists ts'. split; [exact E |]. split.
  - intros x y Hx Hy. rewrite tileAt_nonneg by lia.
    destruct (Hlo (Z.to_nat y)) as (row & row' & _ & -> & Rlo & _);
      [unfold MAX_TILES in *; lia |].
    rewrite Rlo by (unfold MAX_TILES in *; lia).
    rewrite !Z2Nat.id by lia. unfold loadTile.
    destruct ((y <=? maxY sourceRoom) && (x <=? maxX sourceRoom));
      [| reflexivity].
    destruct (tileAt (tiles sourceRoom) x y); reflexivity.
  - intros x y Hout.
    destruct (Z.lt_ge_cases x 0) as [Nx | Px];
      [rewrite !tileAt_negative by lia; reflexivity |].
    destruct (Z.lt_ge_cases y 0) as [Ny | Py];
      [rewrite !tileAt_negative by lia; reflexivity |].
    rewrite !tileAt_nonneg by lia.
    destruct (Z.lt_ge_cases y MAX_TILES) as [Ly | Gy].
    + destruct (Hlo (Z.to_nat y)) as (row & row' & -> & -> & _ & Rhi);
        [unfold MAX_TILES in *; lia |].
      apply Rhi. unfold MAX_TILES in *. lia.
    + rewrite Hhi by (unfold MAX_TILES in *; lia). reflexivity.
Qed.

Lemma loadFromRoomData_spec_core (sourceRoom : RoomData) (sc : FloorplanScene) :
  (Z.to_nat MAX_TILES <= length (tiles (roomData sc)))%nat ->
  maxX (roomData sc) < MAX_TILES -> maxY (roomData sc) < MAX_TILES ->
  (forall x y, 0 <= x < MAX_TILES -> 0 <= y < MAX_TILES ->
     x <= maxX sourceRoom -> y <= maxY sourceRoom ->
     is_Some (tileAt (tiles sourceRoom) x y)) ->
  exists sc',
    loadFromRoomData sourceRoom sc = Some sc' /\
    config sc' = config sc /\
    maxX (roomData sc') = maxX (roomData sc) /\
    maxY (roomData sc') = maxY (roomData sc) /\
    doorTile (roomData sc') =
      match doorTile sourceRoom with
      | Some d => Some d
      | None => doorTile (roomData sc)
      end /\
    (forall x y, 0 <= x < MAX_TILES -> 0 <= y < MAX_TILES ->
       tileAt (tiles (roomData sc')) x y =
         if (y <=? maxY sourceRoom) && (x <=? maxX sourceRoom)
         then option_map
                (fun t => mkTile x y (height t) (isBlocked t) (walkable t))
                (tileAt (tiles sourceRoom) x y)
         else Some (mkTile x y 0 false false)) /\
    (forall x y, ~ (0 <= x < MAX_TILES /\ 0 <= y < MAX_TILES) ->
       tileAt (tiles (roomData sc')) x y = tileAt (tiles (roomData sc)) x y).
Proof.
  intros Hrows Bx By Hsrc.
  destruct (loadRows_spec sourceRoom (tiles (roomData sc)) Hrows Hsrc)
    as (ts' & E & Hin & Hout).
  unfold loadFromRoomData. rewrite E. cbv zeta.
  set (room2 := match doorTile sourceRoom with
                | Some d => set_doorTile (Some d) (set_tiles ts' (roomData sc))
                | None => set_tiles ts' (roomData sc)
                end).
  assert (Ets : tiles room2 = ts')
    by (unfold room2; destruct (doorTile sourceRoom); reflexivity).
  assert (Emx : maxX room2 = maxX (roomData sc))
    by (unfold room2; destruct (doorTile sourceRoom); reflexivity).
  assert (Emy : maxY room2 = maxY (roomData sc))
    by (unfold room2; destruct (doorTile sourceRoom); reflexivity).
  assert (Hg : renderGrid room2 = Some tt).
  { apply renderGrid_Some. intros x y Hx Hy. rewrite Ets, Hin by lia.
    destruct (Z.leb_spec y (maxY sourceRoom)); cbn [andb];
      [| eexists; reflexivity].
    destruct (Z.leb_spec x (maxX sourceRoom)); [| eexists; reflexivity].
    destruct (Hsrc x y) as [t ->]; try lia. eexists. reflexivity. }
  rewrite Hg. eexists. split; [reflexivity |]. cbn [roomData config].
  split; [reflexivity |]. split; [exact Emx |]. split; [exact Emy |].
  split; [unfold room2; destruct (doorTile sourceRoom); reflexivity |].
  rewrite Ets. split; assumption.
Qed.

(** X17: [loadFromRoomData] into an editor whose grid has its 64 row
    arrays and whose bounds lie inside the 64 x 64 square, from a source
    that has a tile wherever its bounds promise one inside the square.
    The load and its closing redraw succeed; inside the square every tile
    is afterwards a copy of the source tile carrying its own coordinates,
    or the empty tile where the source bounds end; whatever the grid held
    outside the square stays; bounds and configuration stay; the door is
    replaced only when the source has one. *)
Theorem loadFromRoomData_spec (sourceRoom : RoomData) (sc : FloorplanScene) :
  (Z.to_nat MAX_TILES <= length (tiles (roomData sc)))%nat ->
  maxX (roomData sc) < MAX_TILES -> maxY (roomData sc) < MAX_TILES ->
  (forall x y, 0 <= x < MAX_TILES -> 0 <= y < MAX_TILES ->
     x <= maxX sourceRoom -> y <= maxY sourceRoom ->
     is_Some (tileAt (tiles sourceRoom) x y)) ->
  exists sc',
    loadFromRoomData sourceRoom sc = Some sc' /\
    config sc' = config sc /\
    maxX (roomData sc') = maxX (roomData sc) /\
    maxY (roomData sc') = maxY (roomData sc) /\
    doorTile (roomData sc') =
      match doorTile sourceRoom with
      | Some d => Some d
      | None => doorTile (roomData sc)
      end /\
    (forall x y, 0 <= x < MAX_TILES -> 0 <= y < MAX_TILES ->
       tileAt (tiles (roomData sc')) x y =
         if (y <=? maxY sourceRoom) && (x <=? maxX sourceRoom)
         then option_map
                (fun t => mkTile x y (height t) (isBlocked t) (walkable t))
                (tileAt (tiles sourceRoom) x y)
         else Some (mkTile x y 0 false false)) /\
    (forall x y, ~ (0 <= x < MAX_TILES /\ 0 <= y < MAX_TILES) ->
       tileAt (tiles (roomData sc')) x y = tileAt (tiles (roomData sc)) x y).
Proof. exact (loadFromRoomData_spec_core sourceRoom sc). Qed.

Lemma loadFromRoomData_spec_witness :
  exists sc',
    loadFromRoomData
      (mkRoomData 0 0 0 0 0 (Some (0, 0)) [[mkTile 0 0 4 false true]])
      newFloorplanScene = Some sc' /\
    doorTile (roomData sc') = Some (0, 0) /\
    tileAt (tiles (roomData sc')) 0 0 = Some (mkTile 0 0 4 false true) /\
    tileAt (tiles (roomData sc')) 1 0 = Some (mkTile 1 0 0 false false).
Proof.
  destruct (loadFromRoomData_spec
              (mkRoomData 0 0 0 0 0 (Some (0, 0)) [[mkTile 0 0 4 false true]])
              newFloorplanScene) as (sc' & E & _ & _ & _ & D & T & _).
  - vm_compute. lia.
  - reflexivity.
  - reflexivity.
  - intros x y Hx Hy Bx By. simpl in Bx, By.
    assert (x = 0) as -> by lia. assert (y = 0) as -> by lia.
    eexists. reflexivity.
  - exists sc'. split; [exact E |]. split; [exact D |].
    split; [exact (T 0 0 ltac:(vm_compute; split; [discriminate | reflexivity])
                        ltac:(vm_compute; split; [discriminate | reflexivity]))
           | exact (T 1 0 ltac:(vm_compute; split; [discriminate | reflexivity])
                        ltac:(vm_compute; split; [discriminate | reflexivity]))].
Defined.

(** X18: a load that succeeds as in X17 (editor bounds inside the
    square), from a source without door, keeps the door of the editor
    where it was, though every tile of the square was replaced: whether
    the door is then on a walkable tile is decided by the loaded tile
    alone, and it is not when the door lies beyond the source bounds. *)
Theorem load_keeps_stale_door (sourceRoom : RoomData) (sc : FloorplanScene)
    (dx dy : Z) :
  (Z.to_nat MAX_TILES <= length (tiles (roomData sc)))%nat ->
  maxX (roomData sc) < MAX_TILES -> maxY (roomData sc) < MAX_TILES ->
  (forall x y, 0 <= x < MAX_TILES -> 0 <= y < MAX_TILES ->
     x <= maxX sourceRoom -> y <= maxY sourceRoom ->
     is_Some (tileAt (tiles sourceRoom) x y)) ->
  doorTile sourceRoom = None ->
  doorTile (roomData sc) = Some (dx, dy) ->
  0 <= dx < MAX_TILES -> 0 <= dy < MAX_TILES ->
  exists sc',
    loadFromRoomData sourceRoom sc = Some sc' /\
    doorTile (roomData sc') = Some (dx, dy) /\
    doorOnWalkable (roomData sc') =
      (if (dy <=? maxY sourceRoom) && (dx <=? maxX sourceRoom)
       then match tileAt (tiles sourceRoom) dx dy with
            | Some t => walkable t
            | None => false
            end
       else false).
Proof.
  intros Hrows Bx By Hsrc Hnd Hd Hx Hy.
  destruct (loadFromRoomData_spec_core sourceRoom sc Hrows Bx By Hsrc)
    as (sc' & E & _ & _ & _ & D & T & _).
  exists sc'. split; [exact E |]. rewrite Hnd in D. rewrite D, Hd.
  split; [reflexivity |].
  unfold doorOnWalkable. rewrite D, Hd, (T dx dy Hx Hy).
  destruct ((dy <=? maxY sourceRoom) && (dx <=? maxX sourceRoom));
    [| reflexivity].
  destruct (tileAt (tiles sourceRoom) dx dy); reflexivity.
Qed.

Lemma load_keeps_stale_door_witness :
  exists sc',
    loadFromRoomData
      (mkRoomData 0 0 0 0 0 None [[mkTile 0 0 0 false true]])
      (mkScene (set_doorTile (Some (3, 3)) createEmptyRoom) (mkConfig SET 0 2))
      = Some sc' /\
    doorTile (roomData sc') = Some (3, 3) /\
    doorOnWalkable (roomData sc') = false.
Proof.
  apply (load_keeps_stale_door
           (mkRoomData 0 0 0 0 0 None [[mkTile 0 0 0 false true]])
           (mkScene (set_doorTile (Some (3, 3)) createEmptyRoom)
                    (mkConfig SET 0 2)) 3 3).
  - vm_compute. lia.
  - reflexivity.
  - reflexivity.
  - intros x y Hx Hy Bx By. simpl in Bx, By.
    assert (x = 0) as -> by lia. assert (y = 0) as -> by lia.
    eexists. reflexivity.
  - reflexivity.
  - reflexivity.
  - vm_compute. split; [discriminate | reflexivity].
  - vm_compute. split; [discriminate | reflexivity].
Defined.

Lemma foldl_None_stays {A B : Type} (f : option A -> B -> option A) (l : list B) :
  (forall b, f None b = None) -> foldl f None l = None.
Proof.
  intro H. induction l as [| b l IH]; simpl; [reflexivity |].
  rewrite H. exact IH.
Qed.

Lemma foldl_fails_at {A B : Type} (f : option A -> B -> option A)
    (l : list B) (a : option A) (b : B) :
  (forall b', f None b' = None) -> b ∈ l -> (forall acc, f acc b = None) ->
  foldl f a l = None.
Proof.
  intros Hn Hin Hb. revert a. induction l as [| c l IH]; intro a.
  - apply elem_of_nil in Hin. contradiction.
  - simpl. apply elem_of_cons in Hin as [<- | Hin].
    + rewrite Hb. apply foldl_None_stays. exact Hn.
    + apply IH. exact Hin.
Qed.

(** X19: a source room whose bounds promise a tile that its grid does not
    hold, at a coordinate inside the 64 x 64 square, makes
    [loadFromRoomData] fail, whatever the editor held. *)
Theorem load_fails_on_missing_source_tile (sourceRoom : RoomData)
    (sc : FloorplanScene) (x y : Z) :
  0 <= x < MAX_TILES -> 0 <= y < MAX_TILES ->
  x <= maxX sourceRoom -> y <= maxY sourceRoom ->
  tileAt (tiles sourceRoom) x y = None ->
  loadFromRoomData sourceRoom sc = None.
Proof.
  intros Hx Hy Bx By Hnone.
  assert (Et : loadTile sourceRoom x y = None).
  { unfold loadTile. destruct (Z.leb_spec y (maxY sourceRoom)); [| lia].
    destruct (Z.leb_spec x (maxX sourceRoom)); [| lia].
    cbn [andb]. rewrite Hnone. reflexivity. }
  assert (Er : forall row, loadRow sourceRoom y row = None).
  { intro row. unfold loadRow. apply (foldl_fails_at _ _ _ x).
    - intro b. reflexivity.
    - apply elem_of_seqZ. lia.
    - intro acc. rewrite Et. destruct acc; reflexivity. }
  unfold loadFromRoomData.
  replace (loadRows sourceRoom (tiles (roomData sc)))
    with (@None (list (list Tile))); [reflexivity |].
  symmetry. unfold loadRows. apply (foldl_fails_at _ _ _ y).
  - intro b. reflexivity.
  - apply elem_of_seqZ. lia.
  - intros [ts' |]; [| reflexivity].
    destruct (index ts' y); [| reflexivity]. rewrite Er. reflexivity.
Qed.

Lemma load_fails_on_missing_source_tile_witness :
  loadFromRoomData (mkRoomData 0 1 0 0 0 None [[mkTile 0 0 0 false true]])
    newFloorplanScene = None.
Proof.
  apply (load_fails_on_missing_source_tile
           (mkRoomData 0 1 0 0 0 None [[mkTile 0 0 0 false true]])
           newFloorplanScene 1 0).
  - unfold MAX_TILES. lia.
  - unfold MAX_TILES. lia.
  - simpl. lia.
  - simpl. lia.
  - reflexivity.
Defined.

(** ** Headings of opposite moves *)

(** X20: for a move that changes [x] or [y], the heading does not depend
    on the heading the avatar had, and the move back has the opposite
    heading, four steps further round the compass. *)
Theorem opposite_moves_opposite_headings (s s' : HabboAvatarSprite)
    (a b : Vector3) :
  ~ ((vx b == vx a)%Q /\ (vy b == vy a)%Q) ->
  calculateDirection s a b = calculateDirection s' a b /\
  calculateDirection s b a = (calculateDirection s a b + 4) mod 8.
Proof.
  intro Hne. unfold calculateDirection.
  destruct (Qsign_cases (vx b - vx a)) as [(X & -> & -> & ->) | [(X & -> & -> & ->) | (X & -> & -> & ->)]];
  destruct (Qsign_cases (vy b - vy a)) as [(Y & -> & -> & ->) | [(Y & -> & -> & ->) | (Y & -> & -> & ->)]];
  destruct (Qsign_cases (vx a - vx b)) as [(X' & -> & -> & ->) | [(X' & -> & -> & ->) | (X' & -> & -> & ->)]];
  try (exfalso; lra);
  destruct (Qsign_cases (vy a - vy b)) as [(Y' & -> & -> & ->) | [(Y' & -> & -> & ->) | (Y' & -> & -> & ->)]];
  try (exfalso; lra);
  cbn [andb]; try (split; reflexivity);
  exfalso; apply Hne; split; lra.
Qed.

Lemma opposite_moves_opposite_headings_witness :
  calculateDirection (newAvatar 0 0 0) (mkVector3 2 2 0) (mkVector3 1 1 0) =
    (calculateDirection (newAvatar 0 0 0) (mkVector3 1 1 0) (mkVector3 2 2 0) + 4)
      mod 8.
Proof.
  apply (opposite_moves_opposite_headings (newAvatar 0 0 0) (newAvatar 0 0 0)
           (mkVector3 1 1 0) (mkVector3 2 2 0)).
  vm_compute. intros [H _]. discriminate H.
Defined.

(** ** From pointer events to the exported pattern *)

Lemma processTileAction_heights (px py : Q) (st st' : FloorplanPointer) :
  heightsInRange (roomData (scene st)) ->
  0 <= currentHeight (config (scene st)) <= 9 ->
  processTileAction px py st = Some st' ->
  heightsInRange (roomData (scene st')) /\
  config (scene st') = config (scene st).
Proof.
  intros Hh Hc. unfold processTileAction.
  destruct (pointerTile _ px py) as [gx gy].
  destruct (_ && _).
  - intro E. injection E as <-. split; [exact Hh | reflexivity].
  - destruct (onClick gx gy (scene st)) as [sc' |] eqn:Ec; [| discriminate].
    intro E. injection E as <-. cbn [scene].
    exact (onClick_heights _ _ _ _ Hh Hc Ec).
Qed.

Lemma runEvents_heights (es : list EditorEvent) :
  forall st st' : FloorplanPointer,
    heightsInRange (roomData (scene st)) ->
    0 <= currentHeight (config (scene st)) <= 9 ->
    Forall validEvent es -> runEvents es st = Some st' ->
    heightsInRange (roomData (scene st')).
Proof.
  induction es as [| e es IH]; intros st st' Hh Hc Hv H; simpl in H.
  - injection H as <-. exact Hh.
  - inversion Hv as [| ? ? Hv1 Hrest]; subst.
    destruct (runEvent e st) as [st1 |] eqn:E; [| discriminate].
    assert (Hstep : heightsInRange (roomData (scene st1)) /\
                    0 <= currentHeight (config (scene st1)) <= 9).
    { destruct e as [x y | x y | | action h dir]; simpl in E.
      - unfold handlePointerDown in E.
        destruct (processTileAction_heights x y
                    (mkPointer (scene st) true (lastUsedTile st)) st1 Hh Hc E)
          as [A B].
        split; [exact A | rewrite B; exact Hc].
      - unfold handlePointerMove in E. destruct (isHolding st); simpl in E.
        + destruct (processTileAction_heights x y st st1 Hh Hc E) as [A B].
          split; [exact A | rewrite B; exact Hc].
        + injection E as <-. split; assumption.
      - injection E as <-. split; assumption.
      - injection E as <-. split; [exact Hh |].
        cbn [scene updateConfig config currentHeight].
        destruct h as [h |]; [exact Hv1 | exact Hc]. }
    destruct Hstep as [Hh1 Hc1]. exact (IH st1 st' Hh1 Hc1 Hrest H).
Qed.

Lemma createEmptyRoom_heights : heightsInRange createEmptyRoom.
Proof.
  unfold heightsInRange, heightInRange.
  apply Forall_forall. intros row Hr. apply Forall_forall. intros t Ht.
  apply list_elem_of_lookup in Hr as (j & Hj).
  apply list_elem_of_lookup in Ht as (i & Hi).
  assert (Et : tileAt (tiles createEmptyRoom) (Z.of_nat i) (Z.of_nat j) = Some t).
  { apply tileAt_lookup. split; [lia |]. split; [lia |].
    exists row. rewrite !Nat2Z.id. split; assumption. }
  rewrite createEmptyRoom_tileAt_core in Et.
  destruct (_ && _); [| discriminate]. injection Et as <-. simpl. lia.
Qed.

(** X21: from the scene as constructed, after any pointer events and any
    configuration changes that set heights in 0..9, all tile heights are
    in 0..9 and [exportPattern] succeeds with 1 to 64 rows over the
    characters x and 0..9. *)
Theorem editor_session_exports (es : list EditorEvent) :
  Forall validEvent es ->
  exists st pattern,
    runEvents es newFloorplanPointer = Some st /\
    heightsInRange (roomData (scene st)) /\
    exportPattern (roomData (scene st)) = Some pattern /\
    (1 <= length pattern <= 64)%nat /\
    forall row c, row ∈ pattern -> c ∈ String.list_ascii_of_string row ->
      c = letter_x \/ exists h, 0 <= h <= 9 /\ c = digit36 h.
Proof.
  intro Hv. destruct (editor_events_never_fail_core es) as (st & E & Hroom).
  assert (Hh : heightsInRange (roomData (scene st))).
  { apply (runEvents_heights es newFloorplanPointer st);
      [exact createEmptyRoom_heights | simpl; lia | exact Hv | exact E]. }
  destruct (exportPattern_of_editor_room_core _ Hroom Hh) as (pattern & P & L & C & _).
  exists st, pattern. split; [exact E |]. split; [exact Hh |].
  split; [exact P |]. split; [exact L |].
  intros row c Hr Hc.
  apply list_elem_of_lookup in Hr as (j & Hj).
  apply list_elem_of_lookup in Hc as (i & Hi).
  destruct (C j i row c Hj Hi) as (t & Et & Hu & Hw).
  destruct (walkable t) eqn:W.
  - right. exists (height t). split; [| apply Hw; reflexivity].
    exact (tileAt_Forall _ _ _ _ _ Hh Et).
  - left. apply Hu. reflexivity.
Qed.

Lemma editor_session_exports_witness :
  exists st pattern,
    runEvents [UpdateConfig (Some SET) (Some 5) None; PointerDown 450 151;
               PointerUp] newFloorplanPointer = Some st /\
    heightsInRange (roomData (scene st)) /\
    exportPattern (roomData (scene st)) = Some pattern /\
    (1 <= length pattern <= 64)%nat.
Proof.
  destruct (editor_session_exports
              [UpdateConfig (Some SET) (Some 5) None; PointerDown 450 151;
               PointerUp]) as (st & pattern & E & H & P & L & _).
  - repeat constructor; simpl; lia.
  - exists st, pattern. repeat split; try assumption; lia.
Defined.
